(** * Firm-name normalizer: a shallow embedding of [script.js]

    The development follows the layout of the script:

    - [JS]: the fragment of the JavaScript run-time the script relies on
      (values, truthiness, property reads on ordinary objects, the string
      and array built-ins it calls);
    - [cleanName], [standardizeName]: the normalization logic;
    - [initialize], [processData], [displayResults] and the download
      handler, as functions on an explicit application state;
    - the event loop between two slices of a run: the tasks that can run
      at a yield of [processData].

    The document [initialize] stores is whatever the response body parses
    to; it is given by the two properties the script reads from it.

    Strings are sequences of code units in the range U+0000..U+00FF
    (Rocq's [string]); on that range [toLowerCase], the regular-expression
    classes [\s], [\w], [\b] and [trim] are written out exactly as
    ECMAScript defines them.  Numbers are binary64 floats.  The two
    third-party libraries (Fuse.js, PapaParse) and the host's
    [localeCompare] are parameters. *)

From Stdlib Require Import List String Ascii Bool Arith NArith ZArith Lia.
From Stdlib Require Import Floats.PrimFloat.
From Stdlib Require Import Sorting.Sorted Sorting.Permutation.
From Stdlib Require Import DecimalString.
Import ListNotations.

Set Implicit Arguments.
Open Scope string_scope.
Open Scope list_scope.

(* ================================================================== *)
(** ** The JavaScript fragment *)
(* ================================================================== *)

Module JS.

(** Objects other than the ones the script builds itself are opaque
    references, identified by name. *)
Inductive jsval : Type :=
| VUndefined
| VNull
| VBool (b : bool)
| VNum (x : float)
| VStr (s : string)
| VObject (ref : string).

(** Abrupt completion: the only exception the script's own code can
    raise is a [TypeError] (property read on [null]/[undefined], call of
    a non-function). *)
Inductive completion (A : Type) : Type :=
| Normal (a : A)
| Throw (message : string).
Arguments Normal {A} a.
Arguments Throw {A} message.

Definition bind {A B} (c : completion A) (k : A -> completion B) : completion B :=
  match c with
  | Normal a => k a
  | Throw m => Throw m
  end.

Definition TypeError : string := "TypeError".

(** [ToBoolean]. *)
Definition truthy (v : jsval) : bool :=
  match v with
  | VUndefined | VNull => false
  | VBool b => b
  | VNum x => negb (PrimFloat.is_zero x || PrimFloat.is_nan x)
  | VStr s => negb (String.eqb s "")
  | VObject _ => true
  end.

(** [SameValueZero], the equality of [Array.prototype.includes]. *)
Definition sameValueZero (a b : jsval) : bool :=
  match a, b with
  | VUndefined, VUndefined => true
  | VNull, VNull => true
  | VBool x, VBool y => Bool.eqb x y
  | VNum x, VNum y => PrimFloat.eqb x y || (PrimFloat.is_nan x && PrimFloat.is_nan y)
  | VStr x, VStr y => String.eqb x y
  | VObject x, VObject y => String.eqb x y
  | _, _ => false
  end.

Definition includes (l : list jsval) (v : jsval) : bool :=
  existsb (fun w => sameValueZero w v) l.

(** *** Ordinary objects

    An ordinary object is the list of its own properties in creation
    order; its prototype is [Object.prototype], whose properties every
    read falls back to. *)
Definition object (A : Type) : Type := list (string * A).

Fixpoint getOwn {A} (o : object A) (k : string) : option A :=
  match o with
  | [] => None
  | (k', v) :: rest => if String.eqb k' k then Some v else getOwn rest k
  end.

Definition objectPrototypeMethods : list string :=
  [ "hasOwnProperty"; "isPrototypeOf"; "propertyIsEnumerable";
    "toLocaleString"; "toString"; "valueOf";
    "__defineGetter__"; "__defineSetter__";
    "__lookupGetter__"; "__lookupSetter__" ].

Definition objectPrototype (k : string) : option jsval :=
  if String.eqb k "constructor" then Some (VObject "Object")
  else if String.eqb k "__proto__" then Some (VObject "Object.prototype")
  else if existsb (String.eqb k) objectPrototypeMethods
       then Some (VObject ("Object.prototype." ++ k))
       else None.

(** [o[k]] for an ordinary object [o] whose own values embed in
    [jsval] through [inj]. *)
Definition get {A} (inj : A -> jsval) (o : object A) (k : string) : jsval :=
  match getOwn o k with
  | Some v => inj v
  | None =>
      match objectPrototype k with
      | Some v => v
      | None => VUndefined
      end
  end.

(** *** String built-ins *)

Fixpoint mapString (f : ascii -> ascii) (s : string) : string :=
  match s with
  | EmptyString => EmptyString
  | String c r => String (f c) (mapString f r)
  end.

Fixpoint filterString (keep : ascii -> bool) (s : string) : string :=
  match s with
  | EmptyString => EmptyString
  | String c r => if keep c then String c (filterString keep r) else filterString keep r
  end.

Definition inRange (lo hi : N) (c : ascii) : bool :=
  (N.leb lo (N_of_ascii c) && N.leb (N_of_ascii c) hi)%bool.

(** Unicode simple lower-case mapping on U+0000..U+00FF: [A-Z] and
    U+00C0..U+00DE except the multiplication sign U+00D7. *)
Definition lowerChar (c : ascii) : ascii :=
  if (inRange 65 90 c
      || (inRange 192 222 c && negb (N.eqb (N_of_ascii c) 215)))%bool
  then ascii_of_N (N_of_ascii c + 32)
  else c.

Definition toLowerCase (s : string) : string := mapString lowerChar s.

(** [\s], also the set [trim] strips: TAB, LF, VT, FF, CR, SPACE, NBSP. *)
Definition isSpace (c : ascii) : bool :=
  (inRange 9 13 c || N.eqb (N_of_ascii c) 32 || N.eqb (N_of_ascii c) 160)%bool.

(** [\w]: [A-Za-z0-9_]. *)
Definition isWordChar (c : ascii) : bool :=
  (inRange 48 57 c || inRange 65 90 c || inRange 97 122 c
   || N.eqb (N_of_ascii c) 95)%bool.

Definition isEmpty (s : string) : bool :=
  match s with EmptyString => true | _ => false end.

Fixpoint trimStart (s : string) : string :=
  match s with
  | EmptyString => EmptyString
  | String c r => if isSpace c then trimStart r else s
  end.

Fixpoint trimEnd (s : string) : string :=
  match s with
  | EmptyString => EmptyString
  | String c r =>
      let r' := trimEnd r in
      if (isSpace c && isEmpty r')%bool then EmptyString else String c r'
  end.

Definition trim (s : string) : string := trimEnd (trimStart s).

Definition head (s : string) : option ascii :=
  match s with EmptyString => None | String c _ => Some c end.

Fixpoint drop (n : nat) (s : string) : string :=
  match n, s with
  | O, _ => s
  | S k, EmptyString => EmptyString
  | S k, String _ r => drop k r
  end.

Fixpoint lastChar (dflt : option ascii) (s : string) : option ascii :=
  match s with
  | EmptyString => dflt
  | String c r => lastChar (Some c) r
  end.

End JS.
Import JS.

(* ================================================================== *)
(** ** Normalization logic: [cleanName] *)
(* ================================================================== *)

(** [/[.,&()]/] *)
Definition isPunctuation (c : ascii) : bool :=
  (Ascii.eqb c "." || Ascii.eqb c "," || Ascii.eqb c "&"
   || Ascii.eqb c "(" || Ascii.eqb c ")")%bool.

Definition removePunctuation (s : string) : string :=
  filterString (fun c => negb (isPunctuation c)) s.

(** The alternation of the suffix pattern, in source order. *)
Definition suffixAlternatives : list string :=
  [ "inc"; "corp"; "llc"; "lp"; "co"; "ltd"; "group"; "financial"; "bank";
    "national association"; "na"; "co" ].

Definition wordCharAt (o : option ascii) : bool :=
  match o with Some c => isWordChar c | None => false end.

(** [\b] between the code unit before and the one after a position. *)
Definition wordBoundary (before after : option ascii) : bool :=
  xorb (wordCharAt before) (wordCharAt after).

(** One alternative followed by the closing [\b]: the length matched. *)
Definition matchAlternative (prev : option ascii) (s alt : string) : option nat :=
  if String.prefix alt s
  then if wordBoundary (lastChar prev alt) (head (drop (String.length alt) s))
       then Some (String.length alt)
       else None
  else None.

(** Ordered choice: the first alternative that lets the rest of the
    pattern succeed. *)
Fixpoint firstAlternative (prev : option ascii) (s : string) (alts : list string)
  : option nat :=
  match alts with
  | [] => None
  | alt :: rest =>
      match matchAlternative prev s alt with
      | Some n => Some n
      | None => firstAlternative prev s rest
      end
  end.

(** [/\b(inc|...|co)\b/] anchored at the current position; [prev] is the
    code unit before it. *)
Definition matchSuffixAt (prev : option ascii) (s : string) : option nat :=
  if wordBoundary prev (head s)
  then firstAlternative prev s suffixAlternatives
  else None.

(** Global replace by the empty string: scan left to right; at a match
    drop the matched code units and resume right after it.  [skip] counts
    the code units of the current match still to be dropped. *)
Fixpoint replaceSuffixes (skip : nat) (prev : option ascii) (s : string) : string :=
  match s with
  | EmptyString => EmptyString
  | String c r =>
      match skip with
      | S k => replaceSuffixes k (Some c) r
      | O =>
          match matchSuffixAt prev s with
          | Some (S k) => replaceSuffixes k (Some c) r
          | _ => String c (replaceSuffixes 0 (Some c) r)
          end
      end
  end.

Definition removeSuffixes (s : string) : string := replaceSuffixes 0 None s.

(** [/\s+/g -> ' '].  [inRun] tells that the previous code unit was
    white space (already replaced). *)
Fixpoint collapseFrom (inRun : bool) (s : string) : string :=
  match s with
  | EmptyString => EmptyString
  | String c r =>
      if isSpace c
      then if inRun then collapseFrom true r else String " " (collapseFrom true r)
      else String c (collapseFrom false r)
  end.

Definition collapseSpaces (s : string) : string := collapseFrom false s.

(** The chain of [cleanName] on a string. *)
Definition cleanString (s : string) : string :=
  trim (collapseSpaces (removeSuffixes (removePunctuation (toLowerCase s)))).

Definition cleanName (name : jsval) : string :=
  match name with
  | VStr s => if negb (truthy name) then "" else cleanString s
  | _ => ""
  end.


(* ================================================================== *)
(** ** Application state *)
(* ================================================================== *)

(** A parsed [knowledge_base.json] of the intended shape: a mapping
    from cleaned variant to standardized label, and the corpus handed to
    Fuse. *)
Record KnowledgeBase : Type := {
  variants : object string;
  allKnownVariants : list string
}.

(** [response.json()] yields whatever the body parses to, and line 25
    stores it unchecked.  The script reads two properties of the stored
    document and nothing else, so a document other than [null] is given
    by what these two reads find.  For a document that is not an object
    (a list, a string, a number, a boolean) and for an object without the
    property, the read finds [undefined].

    [knowledgeBase.variants]: absent or [null], so that every read
    [variants[k]] raises; an object, given by its own members; or an
    array, string, number or boolean, on which a read never raises and
    yields what the engine defines (own indices, [length], built-in
    methods). *)
Inductive VariantsField : Type :=
| NoVariants
| VariantsObject (members : object jsval)
| VariantsOther (read : string -> jsval).

(** [knowledgeBase.allKnownVariants], the collection handed to
    [new Fuse]: an array of strings, or any other value ([undefined] when
    the property is absent). *)
Inductive Collection : Type :=
| StringList (corpus : list string)
| OtherCollection (value : jsval).

Record Document : Type := {
  variantsField : VariantsField;
  allKnownVariantsField : Collection
}.

(** The document of the intended shape. *)
Definition document (kb : KnowledgeBase) : Document := {|
  variantsField :=
    VariantsObject (map (fun entry => (fst entry, VStr (snd entry))) (variants kb));
  allKnownVariantsField := StringList (allKnownVariants kb)
|}.

(** A knowledge base of the intended shape is used as the document it
    is: where a stored document is expected, [Some kb] reads
    [Some (document kb)]. *)
Coercion document : KnowledgeBase >-> Document.
Arguments Some {A} & a.

(** One entry of [fuse.search(...)] with [includeScore: true]. *)
Record FuseResult : Type := {
  item : string;
  refIndex : nat;
  score : float
}.

(** A built Fuse index, seen through its [search] method. *)
Definition FuseIndex : Type := string -> list FuseResult.

Record FuseOptions : Type := {
  includeScore : bool;
  threshold : float
}.

(** A row of [Papa.parse(..., {header: true})]. *)
Definition Row : Type := object string.

Record NormalizedRecord : Type := {
  inputFirmName : jsval;
  standardizedFirmName : jsval
}.

Inductive ListItem : Type :=
| VariantItem (textContent : jsval)
| MoreItem (textContent : string).

(** One [<details>] element of the results view. *)
Record Details : Type := {
  summary : string;
  variantList : list ListItem
}.

Record Status : Type := {
  message : string;
  isError : bool
}.

Record AppState : Type := {
  knowledgeBase : option Document;        (* [None] is [null] *)
  fuse : option FuseIndex;                (* [None] is [null] *)
  parsedData : list Row;
  headers : list string;
  normalizedResults : list NormalizedRecord;
  status : Status;
  processButtonDisabled : bool;
  resultsDiv : list Details;
  resultsContainerShown : bool
}.

Definition initialState : AppState := {|
  knowledgeBase := None;
  fuse := None;
  parsedData := [];
  headers := [];
  normalizedResults := [];
  status := {| message := ""; isError := false |};
  processButtonDisabled := false;
  resultsDiv := [];
  resultsContainerShown := false
|}.

(* ================================================================== *)
(** ** Normalization logic: [standardizeName] *)
(* ================================================================== *)

Definition UNKNOWN : jsval := VStr "UNKNOWN".

(** The literal [0.35]. *)
Definition confidenceThreshold : float := 0x1.6666666666666p-2%float.

(** [variants[k]] on a knowledge base of the intended shape. *)
Definition variantLabel (kb : KnowledgeBase) (k : string) : jsval :=
  get VStr (variants kb) k.

(** [knowledgeBase.variants[k]] on whatever is stored: a [TypeError]
    when [knowledgeBase] is [null], or when its [variants] is absent or
    [null]. *)
Definition readVariant (stored : option Document) (k : string) : completion jsval :=
  match stored with
  | None => Throw TypeError
  | Some doc =>
      match variantsField doc with
      | NoVariants => Throw TypeError
      | VariantsObject members => Normal (get (fun v => v) members k)
      | VariantsOther read => Normal (read k)
      end
  end.

(** Step 2 of [standardizeName]: the fuzzy match. *)
Definition fuzzyMatch (stored : option Document) (fuse : option FuseIndex)
  (cleaned : string) : completion jsval :=
  match fuse with
  | None => Throw TypeError
  | Some index =>
      match index cleaned with
      | best :: _ =>
          if PrimFloat.ltb (score best) confidenceThreshold
          then readVariant stored (item best)
          else Normal UNKNOWN
      | [] => Normal UNKNOWN
      end
  end.

Definition standardizeName (st : AppState) (inputName : jsval) : completion jsval :=
  if negb (truthy inputName) then Normal UNKNOWN
  else
    let cleaned := cleanName inputName in
    if negb (truthy (VStr cleaned)) then Normal UNKNOWN
    else
      bind (readVariant (knowledgeBase st) cleaned)
           (fun label =>
              if truthy label
              then readVariant (knowledgeBase st) cleaned
              else fuzzyMatch (knowledgeBase st) (fuse st) cleaned).

(** A state whose knowledge base and index are in place. *)
Definition loaded (kb : KnowledgeBase) (index : FuseIndex) : AppState := {|
  knowledgeBase := Some kb;
  fuse := Some index;
  parsedData := [];
  headers := [];
  normalizedResults := [];
  status := {| message := "Ready to process files. Please upload a CSV.";
               isError := false |};
  processButtonDisabled := false;
  resultsDiv := [];
  resultsContainerShown := false
|}.

(** The knowledge base of the first scenario. *)
Definition jpmorganBase : KnowledgeBase := {|
  variants := [("jpmorgan chase", "JPMorgan Chase & Co.")];
  allKnownVariants := ["jpmorgan chase"]
|}.

(** The index over an empty corpus: no query has a candidate. *)
Definition emptyIndex : FuseIndex := fun _ => [].

(* ================================================================== *)
(** ** The host: engine-defined conversions and third-party libraries *)
(* ================================================================== *)

Record Host : Type := {
  (** [Number::toString] and [ToString] of an opaque object *)
  numberToString : float -> string;
  objectToString : string -> string;
  (** [String.prototype.localeCompare] in the host's locale *)
  localeCompare : string -> string -> Z;
  (** [new Fuse(list, options)] over an array of strings *)
  Fuse : list string -> FuseOptions -> FuseIndex;
  (** [new Fuse(value, options)] over anything else: whether it raises is
      the library's business *)
  FuseOther : jsval -> FuseOptions -> completion FuseIndex;
  (** [Papa.unparse] *)
  unparse : list NormalizedRecord -> string
}.

(** [ToString], used when a value serves as a property key. *)
Definition toString (h : Host) (v : jsval) : string :=
  match v with
  | VUndefined => "undefined"
  | VNull => "null"
  | VBool true => "true"
  | VBool false => "false"
  | VNum x => numberToString h x
  | VStr s => s
  | VObject ref => objectToString h ref
  end.

Definition natToString (n : nat) : string :=
  NilEmpty.string_of_uint (Nat.to_uint n).

(* ================================================================== *)
(** ** Stateful code: a state-and-exception monad over [AppState] *)
(* ================================================================== *)

Definition M (A : Type) : Type := AppState -> AppState * completion A.

Definition ret {A} (a : A) : M A := fun st => (st, Normal a).

Definition throw {A} (m : string) : M A := fun st => (st, Throw m).

Definition bindM {A B} (c : M A) (k : A -> M B) : M B :=
  fun st =>
    match c st with
    | (st', Normal a) => k a st'
    | (st', Throw m) => (st', Throw m)
    end.

Definition lift {A} (c : completion A) : M A := fun st => (st, c).

Definition gets {A} (f : AppState -> A) : M A := fun st => (st, Normal (f st)).

Definition modify (f : AppState -> AppState) : M unit := fun st => (f st, Normal tt).

(** [try { body } catch (error) { handler(error.message) }] *)
Definition tryCatch (body : M unit) (handler : string -> M unit) : M unit :=
  fun st =>
    match body st with
    | (st', Normal tt) => (st', Normal tt)
    | (st', Throw m) => handler m st'
    end.

Declare Scope js_scope.
Delimit Scope js_scope with js.
Notation "x <- c ;; k" := (bindM c (fun x => k))
  (at level 61, c at next level, right associativity) : js_scope.
Notation "c ;; k" := (bindM c (fun _ => k))
  (at level 61, right associativity) : js_scope.
Open Scope js_scope.

(** *** Assignments to the state variables *)

Definition withKnowledgeBase (v : option Document) (st : AppState) : AppState :=
  {| knowledgeBase := v; fuse := fuse st; parsedData := parsedData st;
     headers := headers st; normalizedResults := normalizedResults st;
     status := status st; processButtonDisabled := processButtonDisabled st;
     resultsDiv := resultsDiv st; resultsContainerShown := resultsContainerShown st |}.

Definition withFuse (v : option FuseIndex) (st : AppState) : AppState :=
  {| knowledgeBase := knowledgeBase st; fuse := v; parsedData := parsedData st;
     headers := headers st; normalizedResults := normalizedResults st;
     status := status st; processButtonDisabled := processButtonDisabled st;
     resultsDiv := resultsDiv st; resultsContainerShown := resultsContainerShown st |}.

Definition withParsed (rows : list Row) (fields : list string) (st : AppState) : AppState :=
  {| knowledgeBase := knowledgeBase st; fuse := fuse st; parsedData := rows;
     headers := fields; normalizedResults := normalizedResults st;
     status := status st; processButtonDisabled := processButtonDisabled st;
     resultsDiv := resultsDiv st; resultsContainerShown := resultsContainerShown st |}.

Definition withResults (v : list NormalizedRecord) (st : AppState) : AppState :=
  {| knowledgeBase := knowledgeBase st; fuse := fuse st; parsedData := parsedData st;
     headers := headers st; normalizedResults := v;
     status := status st; processButtonDisabled := processButtonDisabled st;
     resultsDiv := resultsDiv st; resultsContainerShown := resultsContainerShown st |}.

Definition withStatus (v : Status) (st : AppState) : AppState :=
  {| knowledgeBase := knowledgeBase st; fuse := fuse st; parsedData := parsedData st;
     headers := headers st; normalizedResults := normalizedResults st;
     status := v; processButtonDisabled := processButtonDisabled st;
     resultsDiv := resultsDiv st; resultsContainerShown := resultsContainerShown st |}.

Definition withButtonDisabled (v : bool) (st : AppState) : AppState :=
  {| knowledgeBase := knowledgeBase st; fuse := fuse st; parsedData := parsedData st;
     headers := headers st; normalizedResults := normalizedResults st;
     status := status st; processButtonDisabled := v;
     resultsDiv := resultsDiv st; resultsContainerShown := resultsContainerShown st |}.

Definition withView (v : list Details) (shown : bool) (st : AppState) : AppState :=
  {| knowledgeBase := knowledgeBase st; fuse := fuse st; parsedData := parsedData st;
     headers := headers st; normalizedResults := normalizedResults st;
     status := status st; processButtonDisabled := processButtonDisabled st;
     resultsDiv := v; resultsContainerShown := shown |}.

Definition showStatus (msg : string) (err : bool) : M unit :=
  modify (withStatus {| message := msg; isError := err |}).

(* ================================================================== *)
(** ** Initialization *)
(* ================================================================== *)

(** What [response.json()] settles to: a rejection for a body that is
    not valid JSON, or the parsed document, [None] for the document
    [null].  Nothing in [initialize] checks its shape. *)
Inductive Body : Type :=
| InvalidJson (message : string)
| Json (doc : option Document).

(** What [fetch('data/knowledge_base.json')] settles to. *)
Inductive FetchOutcome : Type :=
| NetworkFailure (message : string)
| Response (ok : bool) (body : Body).

Definition fuseOptions : FuseOptions :=
  {| includeScore := true; threshold := 0x1.999999999999ap-2%float |}.

(** [knowledgeBase.allKnownVariants]; the [TypeError] of a read on
    [null] is caught on line 35, its message is the engine's. *)
Definition readCollection (stored : option Document) : completion Collection :=
  match stored with
  | None => Throw TypeError
  | Some doc => Normal (allKnownVariantsField doc)
  end.

(** [new Fuse(collection, options)] *)
Definition newFuse (h : Host) (collection : Collection) (options : FuseOptions)
  : completion FuseIndex :=
  match collection with
  | StringList corpus => Normal (Fuse h corpus options)
  | OtherCollection value => FuseOther h value options
  end.

(** The part of [initialize] that runs once the fetch has settled
    (lines 23 to 38). *)
Definition fetchSettled (h : Host) (outcome : FetchOutcome) : M unit :=
  tryCatch
    (match outcome with
     | NetworkFailure m => throw m
     | Response ok body =>
         if negb ok then throw "Network response was not ok"
         else
           match body with
           | InvalidJson m => throw m
           | Json doc =>
               modify (withKnowledgeBase doc) ;;
               stored <- gets knowledgeBase ;;
               collection <- lift (readCollection stored) ;;
               index <- lift (newFuse h collection fuseOptions) ;;
               modify (withFuse (Some index)) ;;
               showStatus "Ready to process files. Please upload a CSV." false
           end
     end)
    (fun m =>
       showStatus ("Error loading knowledge base: " ++ m ++ ". Please refresh.") true).

Definition initialize (h : Host) (outcome : FetchOutcome) : M unit :=
  showStatus "Loading AI knowledge base..." false ;;
  fetchSettled h outcome.

(* ================================================================== *)
(** ** Display *)
(* ================================================================== *)

(** *** [Array.prototype.sort] with a comparator

    A stable insertion sort; for a consistent comparator every conforming
    engine returns this very sequence. *)
Fixpoint insertBy {A} (cmp : A -> A -> Z) (x : A) (l : list A) : list A :=
  match l with
  | [] => [x]
  | y :: r => if Z.ltb (cmp x y) 0 then x :: y :: r else y :: insertBy cmp x r
  end.

Definition sortBy {A} (cmp : A -> A -> Z) (l : list A) : list A :=
  fold_left (fun sorted x => insertBy cmp x sorted) l [].

(** *** [Object.keys]

    Own keys that are array indices (canonical decimal strings below
    2^32 - 1) come first, in ascending numeric order; the other keys
    follow in creation order. *)
Definition digitValue (c : ascii) : option N :=
  if inRange 48 57 c then Some (N_of_ascii c - 48)%N else None.

Fixpoint decimalValue (acc : N) (s : string) : option N :=
  match s with
  | EmptyString => Some acc
  | String c r =>
      match digitValue c with
      | Some d => decimalValue (acc * 10 + d)%N r
      | None => None
      end
  end.

Definition arrayIndex (k : string) : option N :=
  match k with
  | EmptyString => None
  | String c r =>
      if (Ascii.eqb c "0" && negb (isEmpty r))%bool then None
      else
        match decimalValue 0 k with
        | Some n => if N.ltb n 4294967295 then Some n else None
        | None => None
        end
  end.

Definition isArrayIndex (k : string) : bool :=
  match arrayIndex k with Some _ => true | None => false end.

Definition indexOrder (a b : string) : Z :=
  match arrayIndex a, arrayIndex b with
  | Some m, Some n => (Z.of_N m - Z.of_N n)%Z
  | _, _ => 0%Z
  end.

Definition objectKeys {A} (o : object A) : list string :=
  let keys := map fst o in
  sortBy indexOrder (filter isArrayIndex keys)
  ++ filter (fun k => negb (isArrayIndex k)) keys.

(** *** Writes to an ordinary object: [o[k] = v] *)
Fixpoint setOwn {A} (o : object A) (k : string) (v : A) : object A :=
  match o with
  | [] => [(k, v)]
  | (k', v') :: rest =>
      if String.eqb k' k then (k', v) :: rest else (k', v') :: setOwn rest k v
  end.

(** *** Grouping *)

(** What [acc[key]] evaluates to when the own values are arrays. *)
Inductive Slot : Type :=
| OwnArray (elems : list jsval)
| Inherited (v : jsval)
| Missing.

Definition readSlot (acc : object (list jsval)) (key : string) : Slot :=
  match getOwn acc key with
  | Some elems => OwnArray elems
  | None =>
      match objectPrototype key with
      | Some v => Inherited v
      | None => Missing
      end
  end.

Definition slotTruthy (s : Slot) : bool :=
  match s with
  | OwnArray _ => true
  | Inherited v => truthy v
  | Missing => false
  end.

(** The reducer of [displayResults]. *)
Definition groupStep (h : Host) (acc : object (list jsval)) (curr : NormalizedRecord)
  : completion (object (list jsval)) :=
  let key := toString h (standardizedFirmName curr) in
  let acc := if negb (slotTruthy (readSlot acc key)) then setOwn acc key [] else acc in
  match readSlot acc key with
  | OwnArray elems =>
      if negb (includes elems (inputFirmName curr))
      then Normal (setOwn acc key (elems ++ [inputFirmName curr]))
      else Normal acc
  | Inherited _ | Missing => Throw TypeError   (* no [includes] method to call *)
  end.

(** [normalizedResults.reduce(reducer, acc)] *)
Fixpoint groupFrom (h : Host) (acc : object (list jsval)) (records : list NormalizedRecord)
  : completion (object (list jsval)) :=
  match records with
  | [] => Normal acc
  | curr :: rest => bind (groupStep h acc curr) (fun acc' => groupFrom h acc' rest)
  end.

Definition group (h : Host) (records : list NormalizedRecord)
  : completion (object (list jsval)) :=
  groupFrom h [] records.

(** The comparator handed to [sort]. *)
Definition keyOrder (h : Host) (a b : string) : Z :=
  if String.eqb a "UNKNOWN" then 1%Z
  else if String.eqb b "UNKNOWN" then (-1)%Z
  else localeCompare h a b.

Definition sortedKeys (h : Host) (grouped : object (list jsval)) : list string :=
  sortBy (keyOrder h) (objectKeys grouped).

Definition maxShown : nat := 100.

(** The [<ul>] of one group. *)
Definition renderVariants (variantsOfKey : list jsval) : list ListItem :=
  map VariantItem (firstn maxShown variantsOfKey)
  ++ (if Nat.ltb maxShown (List.length variantsOfKey)
      then [MoreItem ("...and " ++ natToString (List.length variantsOfKey - maxShown)
                      ++ " more.")]
      else []).

(** The [<details>] of one group.  [key] ranges over [Object.keys(grouped)],
    so [grouped[key]] is an own read. *)
Definition renderGroup (grouped : object (list jsval)) (key : string) : Details :=
  let variantsOfKey :=
    match getOwn grouped key with Some elems => elems | None => [] end in
  {| summary := key ++ " (" ++ natToString (List.length variantsOfKey) ++ " variants found)";
     variantList := renderVariants variantsOfKey |}.

Definition displayResults (h : Host) : M unit :=
  records <- gets normalizedResults ;;
  grouped <- lift (group h records) ;;
  modify (withView (map (renderGroup grouped) (sortedKeys h grouped)) true).

(* ================================================================== *)
(** ** File processing *)
(* ================================================================== *)

Definition chunkSize : nat := 1000.

(** The [for] loop of one slice: [n] iterations starting at index [i]. *)
Fixpoint processRows (column : string) (n i : nat) : M unit :=
  match n with
  | O => ret tt
  | S n' =>
      rows <- gets parsedData ;;
      match nth_error rows i with
      | None => throw TypeError          (* [parsedData[i]] is [undefined] *)
      | Some row =>
          let originalName := get VStr row column in
          st <- gets (fun st => st) ;;
          standardized <- lift (standardizeName st originalName) ;;
          modify (fun st =>
                    withResults (normalizedResults st
                                 ++ [{| inputFirmName := originalName;
                                        standardizedFirmName := standardized |}]) st) ;;
          processRows column n' (S i)
      end
  end.

(** One run of [processChunk]; [Some c] asks for another run with
    [processedCount = c] ([setTimeout(processChunk, 0)]). *)
Definition processChunk (h : Host) (column : string) (totalRows processedCount : nat)
  : M (option nat) :=
  let end_ := Nat.min (processedCount + chunkSize) totalRows in
  processRows column (end_ - processedCount) processedCount ;;
  showStatus ("Processing... " ++ natToString end_ ++ " of " ++ natToString totalRows
              ++ " rows completed.") false ;;
  if Nat.ltb end_ totalRows then ret (Some end_)
  else
    showStatus ("Normalization complete! " ++ natToString totalRows
                ++ " rows processed.") false ;;
    modify (withButtonDisabled false) ;;
    displayResults h ;;
    ret None.

(** The timer queue when the event loop is idle: [processChunk] runs
    until it stops rescheduling itself or raises, and no other task runs
    at the yields ([runChunksWith] below has them).  [None] when [fuel]
    runs out first. *)
Fixpoint runChunks (fuel : nat) (h : Host) (column : string)
  (totalRows processedCount : nat) (st : AppState)
  : option (AppState * completion unit) :=
  match fuel with
  | O => None
  | S fuel' =>
      match processChunk h column totalRows processedCount st with
      | (st', Normal (Some next)) => runChunks fuel' h column totalRows next st'
      | (st', Normal None) => Some (st', Normal tt)
      | (st', Throw m) => Some (st', Throw m)
      end
  end.

(** [processData] when the event loop is idle ([processDataWith] below
    has the tasks at the yields). *)
Definition processData (h : Host) (column : string) (st : AppState)
  : option (AppState * completion unit) :=
  let st := withButtonDisabled true st in
  let st := withStatus {| message := "Starting normalization process...";
                          isError := false |} st in
  let st := withResults [] st in
  let totalRows := List.length (parsedData st) in
  runChunks (S totalRows) h column totalRows 0 st.

(** The click handler of the process button. *)
Definition processButtonClick (h : Host) (selectedColumn : string) (st : AppState)
  : option (AppState * completion unit) :=
  if (negb (truthy (VStr selectedColumn))
      || Nat.eqb (List.length (parsedData st)) 0)%bool
  then Some (showStatus "Invalid column or no data to process." true st)
  else processData h selectedColumn st.

(** What [Papa.parse] reports through its callbacks. *)
Inductive ParseOutcome : Type :=
| ParseComplete (data : list Row) (fields : list string)
| ParseError (message : string).

(** [complete] callback of [Papa.parse]. *)
Definition parseComplete (data : list Row) (fields : list string) : M unit :=
  modify (withParsed data fields) ;;
  showStatus ("Parsed " ++ natToString (List.length data)
              ++ " rows. Please select the column with firm names and click Normalize.")
             false.

(** The [change] handler of the file input; [None] when no file was
    chosen. *)
Definition fileInputChange (file : option (string * ParseOutcome)) : M unit :=
  match file with
  | None => ret tt
  | Some (name, outcome) =>
      showStatus ("Parsing " ++ name ++ "...") false ;;
      modify (fun st => withView (resultsDiv st) false st) ;;
      match outcome with
      | ParseComplete data fields => parseComplete data fields
      | ParseError m => showStatus ("Error parsing CSV: " ++ m) true
      end
  end.

(* ================================================================== *)
(** ** Download *)
(* ================================================================== *)

Inductive DownloadEffect : Type :=
| Alert (text : string)
| SaveFile (fileName : string) (csvContent : string).

Definition downloadButtonClick (h : Host) (st : AppState) : DownloadEffect :=
  if Nat.eqb (List.length (normalizedResults st)) 0
  then Alert "No results to download."
  else SaveFile "normalized_firms.csv" (unparse h (normalizedResults st)).

(* ================================================================== *)
(** ** The event loop between two slices *)
(* ================================================================== *)

(** [setTimeout(processChunk, 0)] (line 142) hands control back to the
    event loop.  Before the timer fires, other handlers of the page can
    run, each to completion: the change handler of the file input up to
    its call of [Papa.parse], a callback of a pending [Papa.parse], the
    rest of [initialize] when the fetch settles only then, and the click
    handler of the download button.  The process button is disabled for
    the time of a run (line 117), so its own handler is not among them. *)
Inductive Task : Type :=
| FileChosen (name : option string)
| ParseSettled (outcome : ParseOutcome)
| FetchSettled (outcome : FetchOutcome)
| DownloadClicked.

(** Lines 75 to 79. *)
Definition fileChosen (name : string) : M unit :=
  showStatus ("Parsing " ++ name ++ "...") false ;;
  modify (fun st => withView (resultsDiv st) false st).

(** Lines 84 to 102. *)
Definition parseSettled (outcome : ParseOutcome) : M unit :=
  match outcome with
  | ParseComplete data fields => parseComplete data fields
  | ParseError m => showStatus ("Error parsing CSV: " ++ m) true
  end.

(** The state a task leaves; none of them raises, and the download
    handler assigns nothing. *)
Definition runTask (h : Host) (task : Task) (st : AppState) : AppState :=
  match task with
  | FileChosen None => st
  | FileChosen (Some name) => fst (fileChosen name st)
  | ParseSettled outcome => fst (parseSettled outcome st)
  | FetchSettled outcome => fst (fetchSettled h outcome st)
  | DownloadClicked => st
  end.

Definition runTasks (h : Host) (tasks : list Task) (st : AppState) : AppState :=
  fold_left (fun s task => runTask h task s) tasks st.

(** The timer queue with the tasks that run at each yield: the [n]-th
    element of [yields] holds, in order, the tasks between the [n]-th
    slice and the next one (none when the list is exhausted).  [None] when
    [fuel] runs out first. *)
Fixpoint runChunksWith (fuel : nat) (h : Host) (column : string)
  (totalRows processedCount : nat) (yields : list (list Task)) (st : AppState)
  : option (AppState * completion unit) :=
  match fuel with
  | O => None
  | S fuel' =>
      match processChunk h column totalRows processedCount st with
      | (st', Normal (Some next)) =>
          runChunksWith fuel' h column totalRows next (tl yields)
            (runTasks h (hd [] yields) st')
      | (st', Normal None) => Some (st', Normal tt)
      | (st', Throw m) => Some (st', Throw m)
      end
  end.

(** [processData] with the tasks that run at its yields; [totalRows] is
    read once, [parsedData] on every iteration. *)
Definition processDataWith (h : Host) (column : string) (yields : list (list Task))
  (st : AppState) : option (AppState * completion unit) :=
  let st := withButtonDisabled true st in
  let st := withStatus {| message := "Starting normalization process...";
                          isError := false |} st in
  let st := withResults [] st in
  let totalRows := List.length (parsedData st) in
  runChunksWith (S totalRows) h column totalRows 0 yields st.

Definition processButtonClickWith (h : Host) (selectedColumn : string)
  (yields : list (list Task)) (st : AppState)
  : option (AppState * completion unit) :=
  if (negb (truthy (VStr selectedColumn))
      || Nat.eqb (List.length (parsedData st)) 0)%bool
  then Some (showStatus "Invalid column or no data to process." true st)
  else processDataWith h selectedColumn yields st.

(* ================================================================== *)
(** ** Reference definitions, following the specification's wording *)
(* ================================================================== *)

(** *** Batch runner: the standardizer applied to each row on its own *)

(** One row on its own: read the selected field, standardize it.  The
    batch the specification describes is [map (normalizeRow st column)]
    over the rows. *)
Definition normalizeRow (st : AppState) (column : string) (row : Row)
  : completion NormalizedRecord :=
  let originalName := get VStr row column in
  bind (standardizeName st originalName)
       (fun standardized =>
          Normal {| inputFirmName := originalName;
                    standardizedFirmName := standardized |}).

(** *** Auxiliary: a loop over the rows, without slices

    What a loop keeps of a sequence of outcomes: the records up to the
    first raise, and that raise if there is one. *)
Fixpoint collect {A} (outcomes : list (completion A)) : list A * completion unit :=
  match outcomes with
  | [] => ([], Normal tt)
  | Normal a :: rest => let (done, c) := collect rest in (a :: done, c)
  | Throw m :: _ => ([], Throw m)
  end.

Definition sequentialRun (st : AppState) (column : string) (rows : list Row)
  : list NormalizedRecord * completion unit :=
  collect (map (normalizeRow st column) rows).

(** Tasks that leave the parsed rows, the knowledge base and the index
    as they are: all but a completed parse and a fetch whose body
    parsed. *)
Definition quiet (task : Task) : bool :=
  match task with
  | FileChosen _ => true
  | ParseSettled (ParseError _) => true
  | ParseSettled (ParseComplete _ _) => false
  | FetchSettled (NetworkFailure _) => true
  | FetchSettled (Response false _) => true
  | FetchSettled (Response true (InvalidJson _)) => true
  | FetchSettled (Response true (Json _)) => false
  | DownloadClicked => true
  end.

(** Two states that differ at most in the status line and in whether
    the results container is shown. *)
Definition agree (st st' : AppState) : Prop :=
  knowledgeBase st' = knowledgeBase st
  /\ fuse st' = fuse st
  /\ parsedData st' = parsedData st
  /\ headers st' = headers st
  /\ normalizedResults st' = normalizedResults st
  /\ processButtonDisabled st' = processButtonDisabled st
  /\ resultsDiv st' = resultsDiv st.

(** *** Grouping view: distinct values in first-seen order *)

(** Keep a value unless [includes] finds it among the ones kept so far. *)
Fixpoint firstSeenFrom (seen l : list jsval) : list jsval :=
  match l with
  | [] => []
  | x :: r =>
      if includes seen x then firstSeenFrom seen r
      else x :: firstSeenFrom (seen ++ [x]) r
  end.

Definition firstSeen (l : list jsval) : list jsval := firstSeenFrom [] l.

(** The raw names of the records filed under [key], in input order. *)
Definition inputsOf (h : Host) (key : string) (records : list NormalizedRecord)
  : list jsval :=
  map inputFirmName
      (filter (fun r => String.eqb (toString h (standardizedFirmName r)) key) records).

Definition labelKeys (h : Host) (records : list NormalizedRecord) : list string :=
  map (fun r => toString h (standardizedFirmName r)) records.

Definition inheritedKey (k : string) : bool :=
  match objectPrototype k with Some _ => true | None => false end.



(** *** Display: what a rendered list shows and reports *)

Fixpoint shownVariants (items : list ListItem) : list jsval :=
  match items with
  | [] => []
  | VariantItem v :: r => v :: shownVariants r
  | MoreItem _ :: r => shownVariants r
  end.

Fixpoint reportedOmissions (items : list ListItem) : list string :=
  match items with
  | [] => []
  | VariantItem _ :: r => reportedOmissions r
  | MoreItem t :: r => t :: reportedOmissions r
  end.

(** *** Knowledge-base consistency *)

Definition ownKey {A} (o : object A) (k : string) : bool :=
  match getOwn o k with Some _ => true | None => false end.

(** Every key of the index is in the search corpus (the data-model
    invariant). *)
Definition indexWithinCorpus (kb : KnowledgeBase) : bool :=
  forallb (fun k => existsb (String.eqb k) (allKnownVariants kb)) (map fst (variants kb)).

(** Every entry of the search corpus is a key of the index (what the
    fuzzy branch of [standardizeName] relies on). *)
Definition corpusWithinIndex (kb : KnowledgeBase) : bool :=
  forallb (ownKey (variants kb)) (allKnownVariants kb).

(** *** Canonical form: whole-word occurrences of a suffix pattern *)

(** The one alternative made of two words. *)
Definition phraseAlternative : string := "national association".

(** Does the suffix pattern match somewhere in [s]? *)
Fixpoint suffixOccurs (prev : option ascii) (s : string) : bool :=
  match s with
  | EmptyString => false
  | String c r =>
      match matchSuffixAt prev s with
      | Some _ => true
      | None => suffixOccurs (Some c) r
      end
  end.

(** Does the two-word alternative occur as whole words somewhere in [s]? *)
Fixpoint phraseOccurs (prev : option ascii) (s : string) : bool :=
  match s with
  | EmptyString => false
  | String c r =>
      (wordBoundary prev (Some c)
       && match matchAlternative prev s phraseAlternative with
          | Some _ => true
          | None => false
          end
       || phraseOccurs (Some c) r)%bool
  end.

(** An alternative that starts and ends with a word character. *)
Definition wordEnded (alt : string) : bool :=
  match alt with
  | EmptyString => false
  | String a _ => (isWordChar a && wordCharAt (lastChar None alt))%bool
  end.

(** The alternatives made of word characters only. *)
Definition singleWordAlternatives : list string :=
  [ "inc"; "corp"; "llc"; "lp"; "co"; "ltd"; "group"; "financial"; "bank"; "na" ].

Fixpoint allChars (p : ascii -> bool) (s : string) : bool :=
  match s with
  | EmptyString => true
  | String c r => (p c && allChars p r)%bool
  end.

(** [s] starts with the word [t], and [t] ends there: what follows is not
    a word character. *)
Fixpoint wholeWord (t s : string) : bool :=
  match t with
  | EmptyString => negb (wordCharAt (head s))
  | String a t' =>
      match s with
      | EmptyString => false
      | String c s' => (Ascii.eqb a c && wholeWord t' s')%bool
      end
  end.

(** A single-word alternative stands as a whole word at the start of
    [s]; [afterWord] tells whether the code unit before is a word
    character. *)
Definition singleAt (afterWord : bool) (s : string) : bool :=
  (negb afterWord && existsb (fun t => wholeWord t s) singleWordAlternatives)%bool.

Fixpoint singleOccurs (afterWord : bool) (s : string) : bool :=
  match s with
  | EmptyString => false
  | String c r => (singleAt afterWord s || singleOccurs (isWordChar c) r)%bool
  end.

(** Every white-space code unit is a single SPACE standing alone;
    [afterSpace] tells whether the code unit before is white space. *)
Fixpoint singleSpaced (afterSpace : bool) (s : string) : bool :=
  match s with
  | EmptyString => true
  | String c r =>
      if isSpace c
      then (Ascii.eqb c " " && negb afterSpace && singleSpaced true r)%bool
      else singleSpaced false r
  end.

Definition noLeadingSpace (s : string) : bool :=
  match s with
  | EmptyString => true
  | String c _ => negb (isSpace c)
  end.

(* ================================================================== *)
(** ** Sample data *)
(* ================================================================== *)

(** A stand-in for Fuse that reports exactly the corpus entries equal
    to the query, at score 0. *)
Fixpoint exactMatches (corpus : list string) (i : nat) (query : string) : list FuseResult :=
  match corpus with
  | [] => []
  | v :: rest =>
      if String.eqb v query
      then {| item := v; refIndex := i; score := 0%float |} :: exactMatches rest (S i) query
      else exactMatches rest (S i) query
  end.

Definition codeUnitOrder (a b : string) : Z :=
  match String.compare a b with
  | Lt => (-1)%Z
  | Eq => 0%Z
  | Gt => 1%Z
  end.

(** Stand-ins for the engine-defined conversions and for [Papa.unparse]
    (one line per record, fields separated by a comma, no quoting). *)
Definition sampleToString (v : jsval) : string :=
  match v with
  | VStr s => s
  | VUndefined => "undefined"
  | VNull => "null"
  | VBool true => "true"
  | VBool false => "false"
  | VNum _ => "NaN"
  | VObject ref => "[object " ++ ref ++ "]"
  end.

Definition sampleUnparse (records : list NormalizedRecord) : string :=
  String.concat (String "010" "")
    ("Input Firm Name,Standardized Firm Name"
     :: map (fun r => sampleToString (inputFirmName r) ++ ","
                      ++ sampleToString (standardizedFirmName r))%string
            records).

Definition sampleHost : Host := {|
  numberToString := fun x => sampleToString (VNum x);
  objectToString := fun ref => sampleToString (VObject ref);
  localeCompare := codeUnitOrder;
  Fuse := fun corpus _ => exactMatches corpus 0;
  FuseOther := fun _ _ => Throw "Cannot read properties of undefined (reading 'length')";
  unparse := sampleUnparse
|}.

Definition acmeBase : KnowledgeBase := {|
  variants := [("acme", "Acme Corporation")];
  allKnownVariants := ["acme"]
|}.

(** Index and corpus disagree in both directions. *)
Definition inconsistentBase : KnowledgeBase := {|
  variants := [("acme", "Acme Corporation")];
  allKnownVariants := ["zenith"]
|}.

(** A key mapped to the empty label, and the empty key. *)
Definition emptyLabelBase : KnowledgeBase := {|
  variants := [("acme", ""); ("", "Blank Holdings")];
  allKnownVariants := []
|}.

Definition acmeRows : list Row :=
  [ [("Firm", "Acme Bank")]; [("Firm", "ACME BANK.")]; [("Firm", "UNKNOWN CO")] ].

(** Indexes whose only candidate for any query is "acme": one scored at
    the threshold itself, one at the largest double below it. *)
Definition justBelowThreshold : float := 0x1.6666666666665p-2%float.

Definition candidateAt (x : float) : FuseIndex :=
  fun _ => [{| item := "acme"; refIndex := 0; score := x |}].

(** A document that lists its variants but has no [variants] mapping:
    [{"allKnownVariants": ["acme"]}]. *)
Definition documentWithoutVariants : Document := {|
  variantsField := NoVariants;
  allKnownVariantsField := StringList ["acme"]
|}.

(** What the script finds in the documents [[]] and [{}]: neither
    property. *)
Definition documentWithoutProperties : Document := {|
  variantsField := NoVariants;
  allKnownVariantsField := OtherCollection VUndefined
|}.

(** The state a page load reaches when the fetched document is
    [documentWithoutVariants]. *)
Definition afterMalformedLoad : AppState :=
  fst (initialize sampleHost (Response true (Json (Some documentWithoutVariants)))
         initialState).

(** The state a page load reaches when the fetched document is
    [inconsistentBase]. *)
Definition afterInconsistentLoad : AppState :=
  fst (initialize sampleHost (Response true (Json (Some inconsistentBase))) initialState).

(** The records of the fourth scenario. *)
Definition acmeRecords : list NormalizedRecord :=
  [ {| inputFirmName := VStr "Acme Bank";
       standardizedFirmName := VStr "Acme Corporation" |};
    {| inputFirmName := VStr "ACME BANK.";
       standardizedFirmName := VStr "Acme Corporation" |};
    {| inputFirmName := VStr "UNKNOWN CO";
       standardizedFirmName := UNKNOWN |} ].

(** A record whose label is the name of a property every ordinary
    object inherits. *)
Definition constructorRecords : list NormalizedRecord :=
  [ {| inputFirmName := VStr "Acme Builders";
       standardizedFirmName := VStr "constructor" |} ].

(** One label with 103 distinct raw names. *)
Definition manyRecords : list NormalizedRecord :=
  map (fun i => {| inputFirmName := VStr ("Acme " ++ natToString i);
                   standardizedFirmName := VStr "Acme Corporation" |})
      (seq 1 103).

(** A loaded page on which a file with the single column "Firm" has
    been parsed. *)
Definition parsedState (kb : KnowledgeBase) (rows : list Row) : AppState :=
  withParsed rows ["Firm"]
    (loaded kb (Fuse sampleHost (allKnownVariants kb) fuseOptions)).

(** Two and a half slices. *)
Definition manyRows : list Row := repeat [("Firm", "Acme Bank")] 2500.






(** Tasks at the first two yields of a run that leave its inputs alone:
    a file is chosen and the download button clicked, then the parse of
    that file fails. *)
Definition busyYields : list (list Task) :=
  [ [FileChosen (Some "other.csv"); DownloadClicked];
    [ParseSettled (ParseError "Unable to read file")] ].

(** One more pass of [cleanName] over a string. *)
Definition cleanPass (s : string) : string := cleanName (VStr s).

(** In lower case and not one of the stripped punctuation characters. *)
Definition cleanChar (c : ascii) : bool :=
  (Ascii.eqb (lowerChar c) c && negb (isPunctuation c))%bool.

(** A row without the "Firm" column. *)
Definition rowWithoutFirm : Row := [("Ticker", "ACME")].

(** *** Batch runner: the states a run goes through *)

(** The state in which [processData] makes its first call of
    [processChunk]. *)
Definition startedState (st : AppState) : AppState :=
  withResults []
    (withStatus {| message := "Starting normalization process...";
                   isError := false |}
       (withButtonDisabled true st)).

(** The state in which the last [processChunk] calls [displayResults]. *)
Definition finishedState (records : list NormalizedRecord) (st : AppState) : AppState :=
  withButtonDisabled false
    (withStatus {| message := "Normalization complete! "
                              ++ natToString (List.length (parsedData st))
                              ++ " rows processed.";
                   isError := false |}
       (withResults records st)).

(** A page whose knowledge base never arrived, on which a file with the
    single column "Firm" has been parsed. *)
Definition unloadedState (rows : list Row) : AppState :=
  withParsed rows ["Firm"] initialState.

(** The file of the fourth scenario, as [Papa.parse] reports it. *)
Definition acmeFile : option (string * ParseOutcome) :=
  Some ("firms.csv", ParseComplete acmeRows ["Firm"]).

(* ================================================================== *)
(** * Properties *)
(* ================================================================== *)

(** ** [cleanName] on examples *)

Example cleanName_citigroup :
  cleanName (VStr "Citigroup, Inc.") = "citigroup".
Proof. reflexivity. Qed.

Example cleanName_acme_bank :
  cleanName (VStr "ACME BANK.") = "acme".
Proof. reflexivity. Qed.

Example cleanName_non_string :
  cleanName (VNum 42%float) = "" /\ cleanName (VObject "row") = "".
Proof. split; reflexivity. Qed.

(** ** [standardizeName] *)

Section Standardize.

Lemma cleanName_of_falsy (raw : jsval) :
  truthy raw = false -> cleanName raw = "".
Proof.
  destruct raw; simpl; try reflexivity.
  intros ->. reflexivity.
Qed.

Lemma truthy_of_cleaned (raw : jsval) :
  cleanName raw <> "" -> truthy raw = true.
Proof.
  intros Hne. destruct (truthy raw) eqn:E; [reflexivity|].
  exfalso. apply Hne. now apply cleanName_of_falsy.
Qed.

Lemma truthy_VStr (s : string) : truthy (VStr s) = true <-> s <> "".
Proof.
  simpl. destruct (String.eqb_spec s ""); simpl; split; congruence.
Qed.

(** Reads of a document of the intended shape are reads of its
    [variants] mapping. *)
Lemma get_document (o : object string) (k : string) :
  get (fun v => v) (map (fun entry => (fst entry, VStr (snd entry))) o) k
  = get VStr o k.
Proof.
  unfold get. induction o as [|[k' label] rest IH]; [reflexivity|].
  cbn [map getOwn fst snd]. destruct (String.eqb k' k); [reflexivity | exact IH].
Qed.

Lemma readVariant_document (kb : KnowledgeBase) (k : string) :
  readVariant (Some kb) k = Normal (variantLabel kb k).
Proof. unfold readVariant, variantLabel. cbn. now rewrite get_document. Qed.

Lemma fuzzyMatch_document (kb : KnowledgeBase) (index : option FuseIndex)
  (cleaned : string) :
  fuzzyMatch (Some kb) index cleaned
  = match index with
    | None => Throw TypeError
    | Some search =>
        match search cleaned with
        | best :: _ =>
            if PrimFloat.ltb (score best) confidenceThreshold
            then Normal (variantLabel kb (item best))
            else Normal UNKNOWN
        | [] => Normal UNKNOWN
        end
    end.
Proof.
  unfold fuzzyMatch. destruct index as [search|]; [|reflexivity].
  destruct (search cleaned) as [|best rest]; [reflexivity|].
  now rewrite readVariant_document.
Qed.

(** The body of [standardizeName] once both early returns are passed,
    on whatever is stored ... *)
Lemma standardizeName_read (st : AppState) (raw : jsval) :
  cleanName raw <> "" ->
  standardizeName st raw
  = bind (readVariant (knowledgeBase st) (cleanName raw))
         (fun label =>
            if truthy label then Normal label
            else fuzzyMatch (knowledgeBase st) (fuse st) (cleanName raw)).
Proof.
  intros Hne. unfold standardizeName.
  rewrite (truthy_of_cleaned raw Hne).
  apply truthy_VStr in Hne. rewrite Hne. cbn [negb].
  destruct (readVariant (knowledgeBase st) (cleanName raw)) as [label|m];
    cbn [bind]; [|reflexivity].
  now destruct (truthy label).
Qed.

(** ... and on a knowledge base of the intended shape. *)
Lemma standardizeName_lookup (st : AppState) (kb : KnowledgeBase) (raw : jsval) :
  knowledgeBase st = Some kb ->
  cleanName raw <> "" ->
  standardizeName st raw =
    if truthy (variantLabel kb (cleanName raw))
    then Normal (variantLabel kb (cleanName raw))
    else fuzzyMatch (Some kb) (fuse st) (cleanName raw).
Proof.
  intros Hkb Hne. rewrite (standardizeName_read st raw Hne), Hkb.
  rewrite readVariant_document. reflexivity.
Qed.

Lemma standardizeName_falsy (st : AppState) (raw : jsval) :
  truthy raw = false -> standardizeName st raw = Normal UNKNOWN.
Proof. intros H. unfold standardizeName. now rewrite H. Qed.

Lemma standardizeName_empty_key (st : AppState) (raw : jsval) :
  cleanName raw = "" -> standardizeName st raw = Normal UNKNOWN.
Proof.
  intros H. unfold standardizeName. rewrite H.
  destruct (truthy raw); reflexivity.
Qed.

(** [standardizeName] reads the state through [knowledgeBase] and
    [fuse] only. *)
Lemma standardizeName_frame (st st' : AppState) (raw : jsval) :
  knowledgeBase st' = knowledgeBase st ->
  fuse st' = fuse st ->
  standardizeName st' raw = standardizeName st raw.
Proof. intros Hk Hf. unfold standardizeName. now rewrite Hk, Hf. Qed.

End Standardize.

Section ExactAndFuzzy.

Lemma corpusWithinIndex_own (kb : KnowledgeBase) (v : string) :
  corpusWithinIndex kb = true ->
  In v (allKnownVariants kb) ->
  exists label, getOwn (variants kb) v = Some label.
Proof.
  unfold corpusWithinIndex. rewrite forallb_forall. intros Hall Hin.
  specialize (Hall v Hin). unfold ownKey in Hall.
  destruct (getOwn (variants kb) v) as [label|]; [eauto | discriminate].
Qed.

(** With a loaded, well-formed knowledge base [standardizeName]
    returns a non-empty string for every input whose cleaned form is not
    the name of a property inherited from [Object.prototype]. *)
Lemma standardizeName_returns_label
  (st : AppState) (kb : KnowledgeBase) (index : FuseIndex) (raw : jsval) :
  knowledgeBase st = Some kb ->
  fuse st = Some index ->
  (forall k label, getOwn (variants kb) k = Some label -> label <> "") ->
  corpusWithinIndex kb = true ->
  (forall q r, In r (index q) -> In (item r) (allKnownVariants kb)) ->
  inheritedKey (cleanName raw) = false ->
  exists label, standardizeName st raw = Normal (VStr label) /\ label <> "".
Proof.
  intros Hkb Hfuse Hlabels Hcons Hitems Hinh.
  destruct (String.eqb_spec (cleanName raw) "") as [Hempty|Hne].
  - exists "UNKNOWN". split; [now apply standardizeName_empty_key | discriminate].
  - rewrite (standardizeName_lookup st raw Hkb Hne).
    unfold variantLabel, get.
    destruct (getOwn (variants kb) (cleanName raw)) as [label|] eqn:Hown.
    + pose proof (Hlabels _ _ Hown) as Hl.
      apply truthy_VStr in Hl. rewrite Hl. exists label. split; [reflexivity|].
      now apply truthy_VStr.
    + unfold inheritedKey in Hinh.
      destruct (objectPrototype (cleanName raw)); [discriminate|].
      simpl. rewrite fuzzyMatch_document, Hfuse.
      destruct (index (cleanName raw)) as [|best rest] eqn:Hsearch.
      * exists "UNKNOWN". split; [reflexivity | discriminate].
      * destruct (PrimFloat.ltb (score best) confidenceThreshold).
        -- assert (Hin : In (item best) (allKnownVariants kb)).
           { apply (Hitems (cleanName raw)). rewrite Hsearch. now left. }
           destruct (corpusWithinIndex_own kb _ Hcons Hin) as [label Hlabel].
           exists label. unfold variantLabel, get. rewrite Hlabel.
           split; [reflexivity | eauto].
        -- exists "UNKNOWN". split; [reflexivity | discriminate].
Qed.

(** C1 (totality), evaluated on the code.  With the knowledge base of
    the first scenario in place, the input "Constructor Group" cleans to
    "constructor", which the exact lookup finds on [Object.prototype]:
    the result is the [Object] function, not a label.  Before the
    knowledge base is loaded (or after a failed load) a non-empty name
    raises a [TypeError]. *)
Theorem standardizeName_not_total :
  (forall index : FuseIndex,
      standardizeName (loaded jpmorganBase index) (VStr "Constructor Group")
      = Normal (VObject "Object"))
  /\ standardizeName initialState (VStr "Acme Bank") = Throw TypeError.
Proof. split; [intros index|]; reflexivity. Qed.

(** C2, as amended: for every raw name whose canonical key is
    non-empty and is an own key of [knowledgeBase.variants] mapped to a
    non-empty label, [standardizeName] returns that label; the state's
    Fuse index (present or not) plays no part. *)
Theorem exact_match_precedence
  (st : AppState) (kb : KnowledgeBase) (raw : jsval) (label : string) :
  knowledgeBase st = Some kb ->
  cleanName raw <> "" ->
  getOwn (variants kb) (cleanName raw) = Some label ->
  label <> "" ->
  standardizeName st raw = Normal (VStr label).
Proof.
  intros Hkb Hne Hown Hlabel.
  rewrite (standardizeName_lookup st raw Hkb Hne).
  unfold variantLabel, get. rewrite Hown.
  apply truthy_VStr in Hlabel. now rewrite Hlabel.
Qed.

Lemma exact_match_precedence_witness :
  knowledgeBase (loaded acmeBase emptyIndex) = Some acmeBase
  /\ cleanName (VStr "ACME BANK.") <> ""
  /\ getOwn (variants acmeBase) (cleanName (VStr "ACME BANK.")) = Some "Acme Corporation"
  /\ "Acme Corporation" <> ""
  /\ standardizeName (loaded acmeBase emptyIndex) (VStr "ACME BANK.")
     = Normal (VStr "Acme Corporation").
Proof.
  assert (H1 : knowledgeBase (loaded acmeBase emptyIndex) = Some acmeBase)
    by reflexivity.
  assert (H2 : cleanName (VStr "ACME BANK.") <> "") by (vm_compute; discriminate).
  assert (H3 : getOwn (variants acmeBase) (cleanName (VStr "ACME BANK."))
               = Some "Acme Corporation") by reflexivity.
  assert (H4 : "Acme Corporation" <> "") by discriminate.
  exact (conj H1 (conj H2 (conj H3 (conj H4
           (exact_match_precedence (loaded acmeBase emptyIndex) (VStr "ACME BANK.")
              H1 H2 H3 H4))))).
Defined.

(** C2 as stated fails on two kinds of key that are present in the
    index: a key mapped to the empty label, and the empty key. *)
Lemma exact_match_precedence_counterexample :
  getOwn (variants emptyLabelBase) (cleanName (VStr "Acme Inc")) = Some ""
  /\ standardizeName (loaded emptyLabelBase emptyIndex) (VStr "Acme Inc")
     = Normal UNKNOWN
  /\ getOwn (variants emptyLabelBase) (cleanName (VStr "Inc."))
     = Some "Blank Holdings"
  /\ standardizeName (loaded emptyLabelBase emptyIndex) (VStr "Inc.")
     = Normal UNKNOWN.
Proof. repeat split; reflexivity. Qed.

(** C3: with no exact match, the best candidate is accepted exactly
    when its score is strictly below the literal [0.35]; a score equal to
    it is rejected. *)
Theorem threshold_is_strict
  (st : AppState) (kb : KnowledgeBase) (index : FuseIndex) (raw : jsval)
  (best : FuseResult) (rest : list FuseResult) :
  knowledgeBase st = Some kb ->
  fuse st = Some index ->
  cleanName raw <> "" ->
  truthy (variantLabel kb (cleanName raw)) = false ->
  index (cleanName raw) = best :: rest ->
  (score best = confidenceThreshold -> standardizeName st raw = Normal UNKNOWN)
  /\ (PrimFloat.ltb (score best) confidenceThreshold = true ->
      standardizeName st raw = Normal (variantLabel kb (item best)))
  /\ (PrimFloat.ltb (score best) confidenceThreshold = false ->
      standardizeName st raw = Normal UNKNOWN).
Proof.
  intros Hkb Hfuse Hne Hmiss Hsearch.
  rewrite (standardizeName_lookup st raw Hkb Hne), Hmiss.
  rewrite fuzzyMatch_document, Hfuse, Hsearch.
  repeat split.
  - intros ->. reflexivity.
  - intros ->. reflexivity.
  - intros ->. reflexivity.
Qed.

End ExactAndFuzzy.

Section Scenarios.

Lemma threshold_is_strict_witness :
  (score {| item := "acme"; refIndex := 0; score := confidenceThreshold |}
     = confidenceThreshold
   /\ standardizeName (loaded acmeBase (candidateAt confidenceThreshold))
        (VStr "Acme Holdings") = Normal UNKNOWN)
  /\ (PrimFloat.ltb
        (score {| item := "acme"; refIndex := 0; score := justBelowThreshold |})
        confidenceThreshold = true
      /\ standardizeName (loaded acmeBase (candidateAt justBelowThreshold))
           (VStr "Acme Holdings") = Normal (VStr "Acme Corporation")).
Proof.
  assert (Hne : cleanName (VStr "Acme Holdings") <> "")
    by (vm_compute; discriminate).
  assert (Hmiss : truthy (variantLabel acmeBase (cleanName (VStr "Acme Holdings")))
                  = false) by reflexivity.
  assert (Hlt : PrimFloat.ltb justBelowThreshold confidenceThreshold = true)
    by reflexivity.
  split.
  - pose proof (@threshold_is_strict
                  (loaded acmeBase (candidateAt confidenceThreshold)) acmeBase
                  (candidateAt confidenceThreshold) (VStr "Acme Holdings")
                  _ [] eq_refl eq_refl Hne Hmiss eq_refl) as [Heq _].
    exact (conj eq_refl (Heq eq_refl)).
  - pose proof (@threshold_is_strict
                  (loaded acmeBase (candidateAt justBelowThreshold)) acmeBase
                  (candidateAt justBelowThreshold) (VStr "Acme Holdings")
                  _ [] eq_refl eq_refl Hne Hmiss eq_refl) as [_ [Hbelow _]].
    exact (conj Hlt (Hbelow Hlt)).
Defined.

(** C6, as amended: "JPMorgan Chase & Co." cleans to "jpmorgan chase"
    (the trailing "co" is one of the stripped suffixes), which is a key
    of the index, so the exact lookup returns "JPMorgan Chase & Co."
    whatever the Fuse index is. *)
Theorem jpmorgan_scenario (st : AppState) :
  cleanName (VStr "JPMorgan Chase & Co.") = "jpmorgan chase"
  /\ getOwn (variants jpmorganBase) "jpmorgan chase" = Some "JPMorgan Chase & Co."
  /\ standardizeName (withKnowledgeBase (Some jpmorganBase) st)
       (VStr "JPMorgan Chase & Co.")
     = Normal (VStr "JPMorgan Chase & Co.").
Proof. repeat split; reflexivity. Qed.

(** C6 as stated: the cleaned form is not "jpmorgan chase co", and the
    exact lookup does not fail. *)
Lemma jpmorgan_scenario_counterexample :
  String.eqb (cleanName (VStr "JPMorgan Chase & Co.")) "jpmorgan chase co" = false
  /\ removeSuffixes "jpmorgan chase  co" = "jpmorgan chase  "
  /\ ownKey (variants jpmorganBase) (cleanName (VStr "JPMorgan Chase & Co.")) = true.
Proof. repeat split; reflexivity. Qed.



End Scenarios.

(** ** [initialize] *)

Section Initialize.

Variable h : Host.

Lemma initialize_network_failure (m : string) (st : AppState) :
  initialize h (NetworkFailure m) st
  = (withStatus {| message := "Error loading knowledge base: " ++ m
                               ++ ". Please refresh.";
                   isError := true |} st, Normal tt).
Proof. reflexivity. Qed.

Lemma initialize_not_ok (body : Body) (st : AppState) :
  initialize h (Response false body) st
  = (withStatus {| message := "Error loading knowledge base: "
                               ++ "Network response was not ok"
                               ++ ". Please refresh.";
                   isError := true |} st, Normal tt).
Proof. reflexivity. Qed.

Lemma initialize_invalid_json (m : string) (st : AppState) :
  initialize h (Response true (InvalidJson m)) st
  = (withStatus {| message := "Error loading knowledge base: " ++ m
                               ++ ". Please refresh.";
                   isError := true |} st, Normal tt).
Proof. reflexivity. Qed.

Lemma initialize_json (doc : option Document) (st : AppState) :
  initialize h (Response true (Json doc)) st
  = match bind (readCollection doc)
                (fun collection => newFuse h collection fuseOptions) with
    | Normal index =>
        (withStatus {| message := "Ready to process files. Please upload a CSV.";
                       isError := false |}
           (withFuse (Some index)
              (withKnowledgeBase doc
                 (withStatus {| message := "Loading AI knowledge base...";
                                isError := false |} st))), Normal tt)
    | Throw m =>
        (withStatus {| message := "Error loading knowledge base: " ++ m
                                   ++ ". Please refresh.";
                       isError := true |}
           (withKnowledgeBase doc
              (withStatus {| message := "Loading AI knowledge base...";
                             isError := false |} st)), Normal tt)
    end.
Proof.
  unfold initialize, fetchSettled, tryCatch, bindM, showStatus, modify, gets, lift.
  cbn [negb knowledgeBase withKnowledgeBase withStatus].
  destruct (readCollection doc) as [collection|m]; cbn [bind]; [|reflexivity].
  destruct (newFuse h collection fuseOptions) as [index|m]; reflexivity.
Qed.

(** C5, as amended.  The load ends in an error status exactly when the
    fetch is rejected, the response is not ok, the body is not valid
    JSON, the parsed document is [null], or [new Fuse] raises on the
    document's [allKnownVariants].  In the first three cases
    [knowledgeBase] and [fuse] are left as they were; in the last two
    [knowledgeBase] already holds the parsed document and [fuse] is left
    as it was.  Every other document is stored and accepted, without any
    check of its [variants] or of the consistency invariant.  If the
    document has the intended shape, lists in [allKnownVariants] only keys
    of [variants], and Fuse returns only entries of the collection it was
    built over, then every variant a search returns is a key of
    [variants] and the read of its label in the fuzzy branch yields that
    own value. *)
Theorem initialize_outcomes (st : AppState) :
  (forall m,
      let st' := fst (initialize h (NetworkFailure m) st) in
      isError (status st') = true
      /\ knowledgeBase st' = knowledgeBase st /\ fuse st' = fuse st)
  /\ (forall body,
         let st' := fst (initialize h (Response false body) st) in
         isError (status st') = true
         /\ knowledgeBase st' = knowledgeBase st /\ fuse st' = fuse st)
  /\ (forall m,
         let st' := fst (initialize h (Response true (InvalidJson m)) st) in
         isError (status st') = true
         /\ knowledgeBase st' = knowledgeBase st /\ fuse st' = fuse st)
  /\ (forall doc,
         let st' := fst (initialize h (Response true (Json doc)) st) in
         knowledgeBase st' = doc
         /\ (isError (status st') = true
             <-> doc = None
                 \/ exists d m,
                      doc = Some d
                      /\ newFuse h (allKnownVariantsField d) fuseOptions = Throw m)
         /\ (isError (status st') = true -> fuse st' = fuse st)
         /\ (forall d index,
                doc = Some d ->
                newFuse h (allKnownVariantsField d) fuseOptions = Normal index ->
                isError (status st') = false /\ fuse st' = Some index))
  /\ (forall kb : KnowledgeBase,
         let st' := fst (initialize h (Response true (Json (Some kb))) st) in
         isError (status st') = false
         /\ knowledgeBase st' = Some kb
         /\ fuse st' = Some (Fuse h (allKnownVariants kb) fuseOptions)
         /\ (corpusWithinIndex kb = true ->
             (forall q r, In r (Fuse h (allKnownVariants kb) fuseOptions q) ->
                          In (item r) (allKnownVariants kb)) ->
             forall index q r,
               fuse st' = Some index ->
               In r (index q) ->
               exists label,
                 getOwn (variants kb) (item r) = Some label
                 /\ variantLabel kb (item r) = VStr label)).
Proof.
  split; [|split; [|split; [|split]]].
  - intros m. repeat split.
  - intros body. repeat split.
  - intros m. repeat split.
  - intros doc. cbv zeta. rewrite initialize_json.
    destruct doc as [d|]; cbn [readCollection bind].
    + destruct (newFuse h (allKnownVariantsField d) fuseOptions) as [index|m] eqn:Hfuse;
        cbn [fst knowledgeBase status isError fuse withStatus withFuse withKnowledgeBase].
      * split; [reflexivity|]. split; [|split].
        -- split; [discriminate|].
           intros [H|[d' [m [[= <-] H]]]]; [discriminate | congruence].
        -- discriminate.
        -- intros d' index' [= <-] H. split; [reflexivity | congruence].
      * split; [reflexivity|]. split; [|split].
        -- split; [|reflexivity]. intros _. right. eauto.
        -- reflexivity.
        -- intros d' index' [= <-] H. congruence.
    + cbn [fst knowledgeBase status isError fuse withStatus withFuse withKnowledgeBase].
      split; [reflexivity|]. split; [|split].
      * split; [now left | reflexivity].
      * reflexivity.
      * intros d index H. discriminate H.
  - intros kb. cbv zeta. rewrite initialize_json.
    cbn [readCollection bind document allKnownVariantsField newFuse fst
         knowledgeBase status isError fuse withStatus withFuse withKnowledgeBase].
    repeat split.
    intros Hcons Hitems index q r [= <-] Hin.
    destruct (corpusWithinIndex_own kb _ Hcons (Hitems q r Hin)) as [label Hlabel].
    exists label. unfold variantLabel, get. now rewrite Hlabel.
Qed.

End Initialize.

Lemma exactMatches_items (corpus : list string) (i : nat) (q : string) (r : FuseResult) :
  In r (exactMatches corpus i q) -> In (item r) corpus.
Proof.
  revert i. induction corpus as [|v rest IH]; simpl; intros i Hin; [assumption|].
  destruct (String.eqb v q).
  - destruct Hin as [<-|Hin]; [now left | right; eauto].
  - right; eauto.
Qed.

(** The bodies [null] and [[]] on [sampleHost], whose Fuse raises on
    [undefined]: line 32 raises inside the [try], the error status is
    shown, and [knowledgeBase] holds what line 25 assigned. *)
Example initialize_null_body :
  initialize sampleHost (Response true (Json None)) (loaded acmeBase emptyIndex)
  = (withStatus {| message := "Error loading knowledge base: " ++ TypeError
                               ++ ". Please refresh.";
                   isError := true |}
       (withKnowledgeBase None (loaded acmeBase emptyIndex)), Normal tt).
Proof. reflexivity. Qed.

Example initialize_list_body :
  isError (status (fst (initialize sampleHost
                          (Response true (Json (Some documentWithoutProperties)))
                          initialState))) = true
  /\ knowledgeBase (fst (initialize sampleHost
                           (Response true (Json (Some documentWithoutProperties)))
                           initialState)) = Some documentWithoutProperties
  /\ fuse (fst (initialize sampleHost
                  (Response true (Json (Some documentWithoutProperties)))
                  initialState)) = None.
Proof. repeat split. Qed.

Lemma initialize_outcomes_witness :
  corpusWithinIndex acmeBase = true
  /\ In {| item := "acme"; refIndex := 0; score := 0%float |}
        (Fuse sampleHost (allKnownVariants acmeBase) fuseOptions "acme")
  /\ exists label,
       getOwn (variants acmeBase) "acme" = Some label
       /\ variantLabel acmeBase "acme" = VStr label.
Proof.
  assert (Hcons : corpusWithinIndex acmeBase = true) by reflexivity.
  assert (Hin : In {| item := "acme"; refIndex := 0; score := 0%float |}
                   (Fuse sampleHost (allKnownVariants acmeBase) fuseOptions "acme"))
    by (simpl; now left).
  refine (conj Hcons (conj Hin _)).
  destruct (initialize_outcomes sampleHost initialState) as [_ [_ [_ [_ Hjson]]]].
  destruct (Hjson acmeBase) as [_ [_ [Hfuse Hsound]]].
  exact (Hsound Hcons
           (fun q r => exactMatches_items (allKnownVariants acmeBase) 0 q r)
           _ "acme" _ Hfuse Hin).
Defined.

(** C5 as stated.  A document without [variants] is not of the
    mapping-plus-set shape, yet its load succeeds, and the first name
    standardized afterwards raises.  The load of a document whose corpus
    and index disagree succeeds as well, and a search can then return a
    variant with no label. *)
Lemma initialize_counterexample :
  isError (status afterMalformedLoad) = false
  /\ knowledgeBase afterMalformedLoad = Some documentWithoutVariants
  /\ standardizeName afterMalformedLoad (VStr "Acme Bank") = Throw TypeError
  /\ isError (status afterInconsistentLoad) = false
  /\ knowledgeBase afterInconsistentLoad = Some inconsistentBase
  /\ corpusWithinIndex inconsistentBase = false
  /\ indexWithinCorpus inconsistentBase = false
  /\ ownKey (variants inconsistentBase) "zenith" = false
  /\ standardizeName afterInconsistentLoad (VStr "Zenith") = Normal VUndefined.
Proof. repeat split; reflexivity. Qed.

(** ** Sorting with a comparator *)

Section SortBy.

Variable A : Type.
Variable cmp : A -> A -> Z.

Lemma insertBy_perm (x : A) (l : list A) :
  Permutation (insertBy cmp x l) (x :: l).
Proof.
  induction l as [|y r IH]; simpl; [reflexivity|].
  destruct (Z.ltb (cmp x y) 0); [reflexivity|].
  rewrite IH. apply perm_swap.
Qed.

Lemma sortFrom_perm (l sorted : list A) :
  Permutation (fold_left (fun s x => insertBy cmp x s) l sorted) (sorted ++ l).
Proof.
  revert sorted. induction l as [|x r IH]; intros sorted; simpl.
  - now rewrite app_nil_r.
  - rewrite IH, insertBy_perm. apply Permutation_middle.
Qed.

Lemma sortBy_perm (l : list A) : Permutation (sortBy cmp l) l.
Proof. unfold sortBy. now rewrite sortFrom_perm. Qed.

Lemma sortBy_In (l : list A) (x : A) : In x (sortBy cmp l) <-> In x l.
Proof.
  split; apply Permutation_in; [| symmetry]; apply sortBy_perm.
Qed.




End SortBy.

(** ** Ordinary objects *)

Section Objects.

Variable A : Type.
Implicit Types (o : object A) (k : string) (v : A).

Lemma getOwn_setOwn_same o k v : getOwn (setOwn o k v) k = Some v.
Proof.
  induction o as [|[k' v'] rest IH]; simpl.
  - now rewrite String.eqb_refl.
  - destruct (String.eqb k' k) eqn:E; simpl; rewrite E; [reflexivity | exact IH].
Qed.

Lemma getOwn_setOwn_other o k k' v :
  k <> k' -> getOwn (setOwn o k v) k' = getOwn o k'.
Proof.
  intros Hne. induction o as [|[k0 v0] rest IH]; simpl.
  - destruct (String.eqb_spec k k'); [contradiction | reflexivity].
  - destruct (String.eqb_spec k0 k) as [->|Hk0]; simpl.
    + destruct (String.eqb_spec k k'); [contradiction | reflexivity].
    + now rewrite IH.
Qed.

Lemma getOwn_In o k : In k (map fst o) <-> ownKey o k = true.
Proof.
  unfold ownKey. induction o as [|[k' v'] rest IH]; simpl.
  - split; [contradiction | discriminate].
  - destruct (String.eqb_spec k' k) as [->|Hne].
    + split; auto.
    + rewrite <- IH. split; [intros [?|?]; [contradiction | assumption] | auto].
Qed.

Lemma keys_setOwn o k v :
  map fst (setOwn o k v) = if ownKey o k then map fst o else map fst o ++ [k].
Proof.
  unfold ownKey. induction o as [|[k' v'] rest IH]; simpl; [reflexivity|].
  destruct (String.eqb_spec k' k) as [->|Hne]; simpl; [reflexivity|].
  rewrite IH. now destruct (getOwn rest k).
Qed.

Lemma keys_setOwn_NoDup o k v :
  NoDup (map fst o) -> NoDup (map fst (setOwn o k v)).
Proof.
  intros Hnd. rewrite keys_setOwn. destruct (ownKey o k) eqn:E; [assumption|].
  apply NoDup_app; [assumption | repeat constructor; intros [] | ].
  intros x Hx [<-|[]]. apply getOwn_In in Hx. congruence.
Qed.

Lemma filter_split_perm (B : Type) (f : B -> bool) (l : list B) :
  Permutation (filter f l ++ filter (fun x => negb (f x)) l) l.
Proof.
  induction l as [|x r IH]; simpl; [reflexivity|].
  destruct (f x); simpl.
  - now constructor.
  - rewrite <- Permutation_middle. now constructor.
Qed.

Lemma objectKeys_perm o : Permutation (objectKeys o) (map fst o).
Proof.
  unfold objectKeys. rewrite sortBy_perm. apply filter_split_perm.
Qed.

End Objects.

Lemma objectPrototype_truthy (k : string) (v : jsval) :
  objectPrototype k = Some v -> truthy v = true.
Proof.
  unfold objectPrototype.
  destruct (String.eqb k "constructor"); [now intros [= <-]|].
  destruct (String.eqb k "__proto__"); [now intros [= <-]|].
  destruct (existsb (String.eqb k) objectPrototypeMethods); [now intros [= <-] | discriminate].
Qed.

(** ** Grouping *)

Section Grouping.

Variable h : Host.

Lemma groupStep_own acc curr elems :
  getOwn acc (toString h (standardizedFirmName curr)) = Some elems ->
  groupStep h acc curr
  = Normal (if includes elems (inputFirmName curr) then acc
            else setOwn acc (toString h (standardizedFirmName curr)) (elems ++ [inputFirmName curr])).
Proof.
  intros Hown. unfold groupStep, readSlot.
  rewrite Hown. simpl. rewrite Hown.
  now destruct (includes elems (inputFirmName curr)).
Qed.

Lemma groupStep_missing acc curr :
  getOwn acc (toString h (standardizedFirmName curr)) = None ->
  inheritedKey (toString h (standardizedFirmName curr)) = false ->
  groupStep h acc curr
  = Normal (setOwn (setOwn acc (toString h (standardizedFirmName curr)) []) (toString h (standardizedFirmName curr)) [inputFirmName curr]).
Proof.
  intros Hown Hinh. unfold groupStep, readSlot, inheritedKey in *.
  rewrite Hown.
  destruct (objectPrototype (toString h (standardizedFirmName curr))); [discriminate|].
  simpl. now rewrite getOwn_setOwn_same.
Qed.

Lemma groupStep_inherited acc curr :
  getOwn acc (toString h (standardizedFirmName curr)) = None ->
  inheritedKey (toString h (standardizedFirmName curr)) = true ->
  groupStep h acc curr = Throw TypeError.
Proof.
  intros Hown Hinh. unfold groupStep, readSlot, inheritedKey in *.
  rewrite Hown.
  destruct (objectPrototype (toString h (standardizedFirmName curr))) as [v|] eqn:Hproto; [|discriminate].
  simpl. rewrite (objectPrototype_truthy _ Hproto). simpl.
  now rewrite Hown.
Qed.

(** What one reducer step does to every slot. *)
Lemma groupStep_slots acc curr acc' :
  groupStep h acc curr = Normal acc' ->
  (forall k, k <> toString h (standardizedFirmName curr) -> getOwn acc' k = getOwn acc k)
  /\ getOwn acc' (toString h (standardizedFirmName curr))
     = Some (match getOwn acc (toString h (standardizedFirmName curr)) with
             | Some elems =>
                 if includes elems (inputFirmName curr) then elems
                 else elems ++ [inputFirmName curr]
             | None => [inputFirmName curr]
             end)
  /\ (NoDup (map fst acc) -> NoDup (map fst acc'))
  /\ (inheritedKey (toString h (standardizedFirmName curr)) = false \/ ownKey acc (toString h (standardizedFirmName curr)) = true).
Proof.
  intros Hstep.
  destruct (getOwn acc (toString h (standardizedFirmName curr))) as [elems|] eqn:Hown.
  - rewrite (groupStep_own _ _ Hown) in Hstep. injection Hstep as <-.
    assert (Hk : ownKey acc (toString h (standardizedFirmName curr)) = true) by (unfold ownKey; now rewrite Hown).
    destruct (includes elems (inputFirmName curr)).
    + repeat split; auto.
    + repeat split; auto.
      * intros k Hk'. apply getOwn_setOwn_other. congruence.
      * apply getOwn_setOwn_same.
      * apply keys_setOwn_NoDup.
  - destruct (inheritedKey (toString h (standardizedFirmName curr))) eqn:Hinh.
    + rewrite (groupStep_inherited _ _ Hown Hinh) in Hstep. discriminate.
    + rewrite (groupStep_missing _ _ Hown Hinh) in Hstep.
      injection Hstep as <-. repeat split; auto.
      * intros k Hk. rewrite !getOwn_setOwn_other by congruence. reflexivity.
      * apply getOwn_setOwn_same.
      * intros Hnd. now do 2 apply keys_setOwn_NoDup.
Qed.

End Grouping.

Section GroupingView.

Variable h : Host.

Lemma inputsOf_cons_same curr rest :
  inputsOf h (toString h (standardizedFirmName curr)) (curr :: rest)
  = inputFirmName curr :: inputsOf h (toString h (standardizedFirmName curr)) rest.
Proof. unfold inputsOf. simpl. now rewrite String.eqb_refl. Qed.

Lemma inputsOf_cons_other k curr rest :
  k <> toString h (standardizedFirmName curr) -> inputsOf h k (curr :: rest) = inputsOf h k rest.
Proof.
  intros Hne. unfold inputsOf. simpl.
  destruct (String.eqb_spec (toString h (standardizedFirmName curr)) k); [congruence | reflexivity].
Qed.

(** Every slot of the grouped object, in terms of the records. *)
Lemma groupFrom_slots records : forall acc grouped,
  groupFrom h acc records = Normal grouped ->
  forall k,
    getOwn grouped k
    = match getOwn acc k with
      | Some elems => Some (elems ++ firstSeenFrom elems (inputsOf h k records))
      | None =>
          if existsb (String.eqb k) (labelKeys h records)
          then Some (firstSeen (inputsOf h k records))
          else None
      end.
Proof.
  induction records as [|curr rest IH]; simpl; intros acc grouped Hrun k.
  - injection Hrun as <-. destruct (getOwn acc k); [now rewrite app_nil_r | reflexivity].
  - destruct (groupStep h acc curr) as [acc1|] eqn:Hstep; simpl in Hrun; [|discriminate].
    destruct (groupStep_slots h acc curr Hstep) as [Hother [Hkey _]].
    rewrite (IH _ _ Hrun k).
    destruct (String.eqb_spec k (toString h (standardizedFirmName curr))) as [->|Hne].
    + rewrite Hkey, inputsOf_cons_same. simpl.
      destruct (getOwn acc (toString h (standardizedFirmName curr))) as [elems|].
      * simpl. destruct (includes elems (inputFirmName curr)); [reflexivity|].
        now rewrite <- app_assoc.
      * reflexivity.
    + rewrite (Hother k Hne), (@inputsOf_cons_other k curr rest Hne). simpl.
      destruct (String.eqb_spec k (toString h (standardizedFirmName curr)));
        [contradiction | reflexivity].
Qed.





Lemma sameValueZero_refl (v : jsval) : sameValueZero v v = true.
Proof.
  destruct v as [| |b|x|s|r]; simpl; try reflexivity.
  - now destruct b.
  - unfold PrimFloat.is_nan. now destruct (PrimFloat.eqb x x).
  - apply String.eqb_refl.
  - apply String.eqb_refl.
Qed.

Lemma includes_In (l : list jsval) (v : jsval) : In v l -> includes l v = true.
Proof.
  intros Hin. unfold includes. apply existsb_exists.
  exists v. split; [assumption | apply sameValueZero_refl].
Qed.



(** Every value kept comes from the input, and every input value is
    found by [includes] among the kept ones. *)
Lemma firstSeenFrom_In l : forall seen x,
  In x (firstSeenFrom seen l) -> In x l.
Proof.
  induction l as [|y r IH]; simpl; intros seen x Hin; [assumption|].
  destruct (includes seen y); [eauto|].
  destruct Hin as [->|Hin]; eauto.
Qed.

End GroupingView.

(** ** The sorted keys of the grouped view *)

Section SortedKeys.

Variable h : Host.

Hypothesis localeCompare_antisym :
  forall a b, (0 <= localeCompare h a b)%Z -> (localeCompare h b a <= 0)%Z.





End SortedKeys.

(** ** The comparator of [sampleHost] is a total order *)

Section CodeUnitOrder.






End CodeUnitOrder.

(** ** The grouped view *)

Section GroupedView.

Variable h : Host.

Hypothesis localeCompare_antisym :
  forall a b, (0 <= localeCompare h a b)%Z -> (localeCompare h b a <= 0)%Z.
Hypothesis localeCompare_trans :
  forall a b c, (localeCompare h a b <= 0)%Z -> (localeCompare h b c <= 0)%Z ->
                (localeCompare h a c <= 0)%Z.



Lemma existsb_eqb_In (k : string) (l : list string) :
  existsb (String.eqb k) l = true <-> In k l.
Proof.
  rewrite existsb_exists. split.
  - intros [x [Hin Heq]]. apply String.eqb_eq in Heq. now subst.
  - intros Hin. exists k. split; [assumption | apply String.eqb_refl].
Qed.


End GroupedView.


(** C7, evaluated on the code: a label that is the name of a property
    inherited from [Object.prototype] makes the reducer raise, so no
    grouped view is produced. *)
Theorem grouping_raises_on_inherited_label (h : Host) (st : AppState) :
  group h constructorRecords = Throw TypeError
  /\ displayResults h (withResults constructorRecords st)
     = (withResults constructorRecords st, Throw TypeError).
Proof. split; reflexivity. Qed.

(** ** Display *)

Section Display.

Variable h : Host.

Lemma displayResults_unfold (st : AppState) :
  displayResults h st
  = match group h (normalizedResults st) with
    | Normal grouped =>
        (withView (map (renderGroup grouped) (sortedKeys h grouped)) true st, Normal tt)
    | Throw m => (st, Throw m)
    end.
Proof.
  unfold displayResults, bindM, gets, lift, modify.
  now destruct (group h (normalizedResults st)).
Qed.

Lemma displayResults_frame (st : AppState) :
  normalizedResults (fst (displayResults h st)) = normalizedResults st
  /\ knowledgeBase (fst (displayResults h st)) = knowledgeBase st
  /\ fuse (fst (displayResults h st)) = fuse st
  /\ parsedData (fst (displayResults h st)) = parsedData st.
Proof.
  rewrite displayResults_unfold.
  destruct (group h (normalizedResults st)); repeat split; reflexivity.
Qed.

Lemma shownVariants_render (elems : list jsval) :
  shownVariants (renderVariants elems) = firstn maxShown elems.
Proof.
  unfold renderVariants.
  assert (Hmap : forall l extra,
             shownVariants (map VariantItem l ++ extra) = l ++ shownVariants extra).
  { induction l as [|x r IH]; intros extra; simpl; [reflexivity | now rewrite IH]. }
  rewrite Hmap.
  destruct (Nat.ltb maxShown (List.length elems)); simpl; apply app_nil_r.
Qed.

Lemma reportedOmissions_render (elems : list jsval) :
  reportedOmissions (renderVariants elems)
  = if Nat.leb (List.length elems) maxShown then []
    else [("...and " ++ natToString (List.length elems - maxShown) ++ " more.")%string].
Proof.
  unfold renderVariants.
  assert (Hmap : forall l extra,
             reportedOmissions (map VariantItem l ++ extra) = reportedOmissions extra).
  { induction l as [|x r IH]; intros extra; simpl; [reflexivity | apply IH]. }
  rewrite Hmap.
  destruct (Nat.ltb_spec maxShown (List.length elems)) as [Hlt|Hge];
    destruct (Nat.leb_spec (List.length elems) maxShown); try lia; reflexivity.
Qed.

(** C9: the rendered list of a group shows its first 100 variants and,
    when there are more, one line reporting how many were left out;
    [displayResults] leaves [normalizedResults] untouched, and the
    download handler hands the whole of it, in order, to the
    serializer. *)
Theorem display_capping_is_presentation_only (st : AppState) :
  normalizedResults (fst (displayResults h st)) = normalizedResults st
  /\ downloadButtonClick h (fst (displayResults h st))
     = (if Nat.eqb (List.length (normalizedResults st)) 0
        then Alert "No results to download."
        else SaveFile "normalized_firms.csv" (unparse h (normalizedResults st)))
  /\ (forall grouped,
         group h (normalizedResults st) = Normal grouped ->
         resultsDiv (fst (displayResults h st))
         = map (renderGroup grouped) (sortedKeys h grouped)
         /\ forall key,
             In key (sortedKeys h grouped) ->
             exists elems,
               getOwn grouped key = Some elems
               /\ shownVariants (variantList (renderGroup grouped key))
                  = firstn 100 elems
               /\ List.length (shownVariants (variantList (renderGroup grouped key)))
                  = Nat.min 100 (List.length elems)
               /\ reportedOmissions (variantList (renderGroup grouped key))
                  = if Nat.leb (List.length elems) 100 then []
                    else [("...and " ++ natToString (List.length elems - 100)
                           ++ " more.")%string]).
Proof.
  destruct (displayResults_frame st) as [Hres _].
  split; [assumption|]. split.
  - unfold downloadButtonClick. now rewrite Hres.
  - intros grouped Hrun. rewrite displayResults_unfold, Hrun. split; [reflexivity|].
    intros key Hin. apply sortBy_In in Hin.
    apply (Permutation_in _ (objectKeys_perm grouped)) in Hin.
    apply getOwn_In in Hin. unfold ownKey in Hin.
    destruct (getOwn grouped key) as [elems|] eqn:Hown; [|discriminate].
    exists elems. unfold renderGroup. rewrite Hown. simpl variantList.
    rewrite shownVariants_render, reportedOmissions_render.
    repeat split. apply length_firstn.
Qed.

End Display.

Lemma display_capping_is_presentation_only_witness :
  exists grouped,
    group sampleHost manyRecords = Normal grouped
    /\ In "Acme Corporation" (sortedKeys sampleHost grouped)
    /\ exists elems,
         getOwn grouped "Acme Corporation" = Some elems
         /\ List.length elems = 103
         /\ List.length (shownVariants (variantList (renderGroup grouped "Acme Corporation")))
            = 100
         /\ reportedOmissions (variantList (renderGroup grouped "Acme Corporation"))
            = ["...and 3 more."].
Proof.
  destruct (display_capping_is_presentation_only sampleHost
              (withResults manyRecords initialState)) as [_ [_ Hview]].
  destruct (group sampleHost manyRecords) as [grouped|m] eqn:Hrun;
    [|vm_compute in Hrun; discriminate].
  exists grouped. split; [reflexivity|].
  assert (Hkey : In "Acme Corporation" (sortedKeys sampleHost grouped)).
  { vm_compute in Hrun. injection Hrun as <-. vm_compute. now left. }
  split; [assumption|].
  destruct (Hview grouped Hrun) as [_ Hgroups].
  destruct (Hgroups "Acme Corporation" Hkey) as [elems [Hown [_ [Hlen Hmore]]]].
  assert (Hcount : List.length elems = 103).
  { vm_compute in Hrun. injection Hrun as <-. vm_compute in Hown.
    injection Hown as <-. reflexivity. }
  exists elems. split; [assumption|]. split; [assumption|].
  rewrite Hlen, Hmore, Hcount. split; reflexivity.
Defined.

(** ** File processing *)

Section SequentialRun.

Lemma collect_app (A : Type) (l1 l2 : list (completion A)) :
  collect (l1 ++ l2)
  = match snd (collect l1) with
    | Normal _ => (fst (collect l1) ++ fst (collect l2), snd (collect l2))
    | Throw m => (fst (collect l1), Throw m)
    end.
Proof.
  induction l1 as [|[a|m] r IH]; simpl.
  - now destruct (collect l2).
  - rewrite IH. destruct (collect r) as [done [u|m]]; simpl; reflexivity.
  - reflexivity.
Qed.


(** When no row raises, the sequential run keeps one record per row. *)
Lemma collect_all_Normal (A : Type) (l : list (completion A)) :
  (forall c, In c l -> exists a, c = Normal a) ->
  snd (collect l) = Normal tt /\ map Normal (fst (collect l)) = l.
Proof.
  induction l as [|c r IH]; intros Hall; [now split|].
  destruct (Hall c (or_introl eq_refl)) as [a ->].
  destruct IH as [IH1 IH2]; [intros c' Hc'; apply Hall; now right|].
  cbn [collect]. destruct (collect r) as [done c']; cbn [fst snd] in *.
  split; [assumption|]. cbn [map]. now rewrite IH2.
Qed.



Lemma normalizeRow_frame (st st' : AppState) (column : string) (row : Row) :
  knowledgeBase st' = knowledgeBase st ->
  fuse st' = fuse st ->
  normalizeRow st' column row = normalizeRow st column row.
Proof.
  intros Hk Hf. unfold normalizeRow.
  now rewrite (standardizeName_frame st st' _ Hk Hf).
Qed.

Lemma sequentialRun_frame (st st' : AppState) (column : string) (rows : list Row) :
  knowledgeBase st' = knowledgeBase st ->
  fuse st' = fuse st ->
  sequentialRun st' column rows = sequentialRun st column rows.
Proof.
  intros Hk Hf. unfold sequentialRun. f_equal.
  apply map_ext. intros row. now apply normalizeRow_frame.
Qed.

Lemma sequentialRun_app (st : AppState) (column : string) (l1 l2 : list Row) :
  sequentialRun st column (l1 ++ l2)
  = match snd (sequentialRun st column l1) with
    | Normal _ => (fst (sequentialRun st column l1) ++ fst (sequentialRun st column l2),
                   snd (sequentialRun st column l2))
    | Throw m => (fst (sequentialRun st column l1), Throw m)
    end.
Proof. unfold sequentialRun. rewrite map_app. apply collect_app. Qed.

Lemma skipn_nth_error (A : Type) (l : list A) (i : nat) (x : A) :
  nth_error l i = Some x -> skipn i l = x :: skipn (S i) l.
Proof.
  revert i. induction l as [|y r IH]; intros [|i]; simpl; try discriminate.
  - now intros [= ->].
  - apply IH.
Qed.

Lemma withResults_same (st : AppState) : withResults (normalizedResults st) st = st.
Proof. now destruct st. Qed.

End SequentialRun.

Section ProcessRows.

Variable column : string.

(** The [for] loop of a slice is the sequential run over that slice. *)
Lemma processRows_spec (n : nat) : forall i st,
  i + n <= List.length (parsedData st) ->
  processRows column n i st
  = (withResults
       (normalizedResults st
        ++ fst (sequentialRun st column (firstn n (skipn i (parsedData st))))) st,
     snd (sequentialRun st column (firstn n (skipn i (parsedData st))))).
Proof.
  induction n as [|n IH]; intros i st Hlen.
  - simpl. unfold ret. simpl. now rewrite app_nil_r, withResults_same.
  - destruct (nth_error (parsedData st) i) as [row|] eqn:Hrow.
    2:{ apply nth_error_None in Hrow. lia. }
    rewrite (skipn_nth_error _ _ Hrow).
    remember (skipn (S i) (parsedData st)) as tail eqn:Htail.
    cbn [firstn]. unfold sequentialRun. cbn [map collect].
    cbn [processRows]. unfold bindM, gets, lift, modify, throw. rewrite Hrow.
    unfold normalizeRow at 1 3. unfold bind.
    destruct (standardizeName st (get VStr row column)) as [standardized|m] eqn:Hstd.
    + rewrite IH by (simpl; lia).
      change (parsedData (withResults ?x st)) with (parsedData st).
      rewrite <- Htail.
      rewrite (sequentialRun_frame st (withResults _ st)) by reflexivity.
      unfold sequentialRun.
      destruct (collect (map (normalizeRow st column) (firstn n tail))) as [done c].
      cbn [fst snd normalizedResults withResults].
      now rewrite <- app_assoc.
    + cbn [fst snd]. now rewrite app_nil_r, withResults_same.
Qed.

End ProcessRows.

Section ProcessData.

Variable h : Host.
Variable column : string.

Lemma processChunk_unfold (totalRows processedCount : nat) (st : AppState) :
  processChunk h column totalRows processedCount st
  = let end_ := Nat.min (processedCount + chunkSize) totalRows in
    match processRows column (end_ - processedCount) processedCount st with
    | (st1, Normal _) =>
        let st2 :=
          withStatus {| message := "Processing... " ++ natToString end_ ++ " of "
                                    ++ natToString totalRows ++ " rows completed.";
                        isError := false |} st1 in
        if Nat.ltb end_ totalRows then (st2, Normal (Some end_))
        else
          match displayResults h
                  (withButtonDisabled false
                     (withStatus {| message := "Normalization complete! "
                                                ++ natToString totalRows
                                                ++ " rows processed.";
                                    isError := false |} st2)) with
          | (st3, Normal _) => (st3, Normal None)
          | (st3, Throw m) => (st3, Throw m)
          end
    | (st1, Throw m) => (st1, Throw m)
    end.
Proof.
  unfold processChunk, bindM, showStatus, modify, ret. cbv zeta.
  destruct (processRows column _ processedCount st) as [st1 [[]|m]]; [|reflexivity].
  destruct (Nat.ltb _ totalRows); [reflexivity|].
  destruct (displayResults h _) as [st3 [[]|m]]; reflexivity.
Qed.

Lemma skipn_slice (A : Type) (l : list A) (i j : nat) :
  i <= j -> skipn i l = firstn (j - i) (skipn i l) ++ skipn j l.
Proof.
  intros Hij. rewrite <- (firstn_skipn (j - i) (skipn i l)) at 1.
  rewrite skipn_skipn. now replace (j - i + i) with j by lia.
Qed.


End ProcessData.

(** ** Tasks at the yields *)

Section EventLoop.

Variable h : Host.
Variable column : string.

Lemma agree_refl (st : AppState) : agree st st.
Proof. repeat split. Qed.

Lemma agree_trans (a b c : AppState) : agree a b -> agree b c -> agree a c.
Proof.
  intros (H1 & H2 & H3 & H4 & H5 & H6 & H7) (G1 & G2 & G3 & G4 & G5 & G6 & G7).
  repeat split; congruence.
Qed.

Lemma agree_eq (st st' : AppState) :
  agree st st' ->
  status st' = status st ->
  resultsContainerShown st' = resultsContainerShown st ->
  st' = st.
Proof.
  destruct st, st'. intros (H1 & H2 & H3 & H4 & H5 & H6 & H7) H8 H9.
  cbn in *. now subst.
Qed.

Lemma runTask_quiet (task : Task) (st : AppState) :
  quiet task = true -> agree st (runTask h task st).
Proof.
  destruct task as [[name|]|[data fields|m]|[m|[|] [m|doc]]|];
    try discriminate; intros _; repeat split.
Qed.

Lemma runTasks_quiet (tasks : list Task) : forall st st',
  forallb quiet tasks = true -> agree st st' -> agree st (runTasks h tasks st').
Proof.
  induction tasks as [|task rest IH]; intros st st' Hquiet Hagree; [exact Hagree|].
  cbn [forallb] in Hquiet. apply andb_true_iff in Hquiet as [Htask Hrest].
  cbn [runTasks fold_left]. apply (IH st _ Hrest).
  exact (agree_trans Hagree (runTask_quiet task st' Htask)).
Qed.

Lemma processRows_step (n i : nat) (st : AppState) :
  processRows column (S n) i st
  = match nth_error (parsedData st) i with
    | None => (st, Throw TypeError)
    | Some row =>
        match standardizeName st (get VStr row column) with
        | Normal standardized =>
            processRows column n (S i)
              (withResults
                 (normalizedResults st
                  ++ [{| inputFirmName := get VStr row column;
                         standardizedFirmName := standardized |}]) st)
        | Throw m => (st, Throw m)
        end
    end.
Proof.
  cbn [processRows]. unfold bindM, gets, lift, modify, throw.
  destruct (nth_error (parsedData st) i) as [row|]; [|reflexivity].
  now destruct (standardizeName st (get VStr row column)).
Qed.

(** The loop of a slice reads the state through the parsed rows, the
    knowledge base, the index and the results only. *)
Lemma processRows_agree (n : nat) : forall i st st',
  agree st st' ->
  snd (processRows column n i st') = snd (processRows column n i st)
  /\ agree (fst (processRows column n i st)) (fst (processRows column n i st')).
Proof.
  induction n as [|n IH]; intros i st st' Hagree; [now split|].
  rewrite !processRows_step.
  pose proof Hagree as (Hk & Hf & Hp & Hh & Hn & Hb & Hd).
  rewrite Hp.
  destruct (nth_error (parsedData st) i) as [row|]; [|now split].
  rewrite (standardizeName_frame st st' _ Hk Hf), Hn.
  destruct (standardizeName st (get VStr row column)) as [v|m]; [|now split].
  apply IH. repeat split; assumption.
Qed.

Lemma processRows_button (n : nat) : forall i st,
  processButtonDisabled (fst (processRows column n i st)) = processButtonDisabled st.
Proof.
  induction n as [|n IH]; intros i st; [reflexivity|].
  rewrite processRows_step.
  destruct (nth_error (parsedData st) i) as [row|]; [|reflexivity].
  destruct (standardizeName st (get VStr row column)) as [v|m]; [|reflexivity].
  now rewrite IH.
Qed.

Lemma processChunk_agree (totalRows processedCount : nat) (st st' : AppState) :
  agree st st' ->
  snd (processChunk h column totalRows processedCount st')
  = snd (processChunk h column totalRows processedCount st)
  /\ agree (fst (processChunk h column totalRows processedCount st))
           (fst (processChunk h column totalRows processedCount st'))
  /\ (snd (processChunk h column totalRows processedCount st) = Normal None ->
      fst (processChunk h column totalRows processedCount st')
      = fst (processChunk h column totalRows processedCount st))
  /\ (processButtonDisabled st = true ->
      processButtonDisabled (fst (processChunk h column totalRows processedCount st))
      = false ->
      status (fst (processChunk h column totalRows processedCount st'))
      = status (fst (processChunk h column totalRows processedCount st))).
Proof.
  intros Hagree. rewrite !processChunk_unfold. cbv zeta.
  set (end_ := Nat.min (processedCount + chunkSize) totalRows).
  destruct (processRows_agree (end_ - processedCount) processedCount Hagree)
    as [Hsame Hrows].
  destruct (processRows column (end_ - processedCount) processedCount st)
    as [st1 [[]|m]] eqn:E1;
    destruct (processRows column (end_ - processedCount) processedCount st')
      as [st1' [[]|m']]; cbn [fst snd] in *; try discriminate.
  - pose proof Hrows as (Hk & Hf & Hp & Hh & Hn & Hb & Hd).
    assert (Hbutton : processButtonDisabled st1 = processButtonDisabled st).
    { pose proof (processRows_button (end_ - processedCount) processedCount st) as H.
      now rewrite E1 in H. }
    destruct (Nat.ltb end_ totalRows).
    + cbn [fst snd processButtonDisabled withStatus].
      split; [reflexivity|]. split; [repeat split; assumption|].
      split; [discriminate|]. intros Hon Hoff. congruence.
    + rewrite !displayResults_unfold.
      cbn [normalizedResults withButtonDisabled withStatus]. rewrite Hn.
      destruct (group h (normalizedResults st1)) as [grouped|m]; cbn [fst snd].
      * split; [reflexivity|]. split; [repeat split; assumption|].
        assert (Heq : withView (map (renderGroup grouped) (sortedKeys h grouped)) true
                        (withButtonDisabled false
                           (withStatus
                              {| message := "Normalization complete! "
                                            ++ natToString totalRows
                                            ++ " rows processed.";
                                 isError := false |}
                              (withStatus
                                 {| message := "Processing... " ++ natToString end_
                                               ++ " of " ++ natToString totalRows
                                               ++ " rows completed.";
                                    isError := false |} st1')))
                      = withView (map (renderGroup grouped) (sortedKeys h grouped)) true
                          (withButtonDisabled false
                             (withStatus
                                {| message := "Normalization complete! "
                                              ++ natToString totalRows
                                              ++ " rows processed.";
                                   isError := false |}
                                (withStatus
                                   {| message := "Processing... " ++ natToString end_
                                                 ++ " of " ++ natToString totalRows
                                                 ++ " rows completed.";
                                      isError := false |} st1)))).
        { apply agree_eq; [repeat split; assumption | reflexivity | reflexivity]. }
        split; [intros _; exact Heq | intros _ _; now rewrite Heq].
      * split; [reflexivity|]. split; [repeat split; assumption|].
        split; [discriminate | reflexivity].
  - injection Hsame as ->. split; [reflexivity|]. split; [exact Hrows|].
    split; [discriminate|]. intros Hon Hoff. exfalso.
    assert (Hbutton : processButtonDisabled st1 = processButtonDisabled st).
    { pose proof (processRows_button (end_ - processedCount) processedCount st) as H.
      now rewrite E1 in H. }
    congruence.
Qed.

Lemma processChunk_button (totalRows processedCount next : nat) (st : AppState) :
  snd (processChunk h column totalRows processedCount st) = Normal (Some next) ->
  processButtonDisabled (fst (processChunk h column totalRows processedCount st))
  = processButtonDisabled st.
Proof.
  rewrite processChunk_unfold. cbv zeta.
  pose proof (processRows_button
                (Nat.min (processedCount + chunkSize) totalRows - processedCount)
                processedCount st) as Hbutton.
  destruct (processRows column _ processedCount st) as [st1 [[]|m]];
    cbn [fst snd] in *; [|discriminate].
  destruct (Nat.ltb _ totalRows); [intros _; exact Hbutton|].
  now destruct (displayResults h _) as [st3 [[]|m]].
Qed.

(** Tasks that leave the parsed rows, the knowledge base and the index
    alone do not touch the run: it ends when the undisturbed run ends,
    with the same outcome and the same records; after a normal return
    the two final states are the same, and once the last slice is done
    the status lines are. *)
Lemma runChunksWith_quiet (fuel : nat) : forall totalRows processedCount yields st st',
  forallb (forallb quiet) yields = true ->
  agree st st' ->
  match runChunks fuel h column totalRows processedCount st with
  | None => runChunksWith fuel h column totalRows processedCount yields st' = None
  | Some (final, c) =>
      exists final',
        runChunksWith fuel h column totalRows processedCount yields st'
        = Some (final', c)
        /\ agree final final'
        /\ (c = Normal tt -> final' = final)
        /\ (processButtonDisabled st = true ->
            processButtonDisabled final = false ->
            status final' = status final)
  end.
Proof.
  induction fuel as [|fuel IH]; intros totalRows pc yields st st' Hquiet Hagree;
    [reflexivity|].
  cbn [runChunks runChunksWith].
  destruct (processChunk_agree totalRows pc Hagree)
    as [Hsame [Hnext [Hlast Hstatus]]].
  pose proof (fun next => @processChunk_button totalRows pc next st) as Hbutton.
  destruct (processChunk h column totalRows pc st) as [st1 [[next|]|m]];
    destruct (processChunk h column totalRows pc st') as [st1' c'];
    cbn [fst snd] in *; subst c'.
  - specialize (IH totalRows next (tl yields) st1 (runTasks h (hd [] yields) st1')).
    destruct (runChunks fuel h column totalRows next st1) as [[final c]|].
    + destruct IH as [final' [Hrun [Hfinal [Hnormal Hdone]]]].
      * destruct yields as [|tasks rest]; [reflexivity|].
        cbn [forallb] in Hquiet. now apply andb_true_iff in Hquiet as [_ Hrest].
      * apply runTasks_quiet; [|exact Hnext].
        destruct yields as [|tasks rest]; [reflexivity|].
        cbn [forallb] in Hquiet. now apply andb_true_iff in Hquiet as [Htasks _].
      * exists final'. split; [exact Hrun|]. split; [exact Hfinal|].
        split; [exact Hnormal|]. intros Hon. apply Hdone.
        now rewrite (Hbutton next eq_refl).
    + apply IH.
      * destruct yields as [|tasks rest]; [reflexivity|].
        cbn [forallb] in Hquiet. now apply andb_true_iff in Hquiet as [_ Hrest].
      * apply runTasks_quiet; [|exact Hnext].
        destruct yields as [|tasks rest]; [reflexivity|].
        cbn [forallb] in Hquiet. now apply andb_true_iff in Hquiet as [Htasks _].
  - exists st1'. split; [reflexivity|]. split; [exact Hnext|].
    split; [intros _; now apply Hlast | exact Hstatus].
  - exists st1'. split; [reflexivity|]. split; [exact Hnext|].
    split; [discriminate | exact Hstatus].
Qed.

(** The same for [processData], from two states that agree. *)
Lemma processDataWith_quiet (yields : list (list Task)) (st st' : AppState) :
  forallb (forallb quiet) yields = true ->
  agree (startedState st) (startedState st') ->
  match processData h column st with
  | None => processDataWith h column yields st' = None
  | Some (final, c) =>
      exists final',
        processDataWith h column yields st' = Some (final', c)
        /\ agree final final'
        /\ (c = Normal tt -> final' = final)
        /\ (processButtonDisabled final = false -> status final' = status final)
  end.
Proof.
  intros Hquiet Hagree.
  pose proof (@runChunksWith_quiet (S (List.length (parsedData st)))
                (List.length (parsedData st)) 0 yields
                (startedState st) (startedState st') Hquiet Hagree) as Hrun.
  assert (Hrows : parsedData st' = parsedData st) by apply Hagree.
  unfold processData, processDataWith. cbv zeta.
  change (withResults []
            (withStatus {| message := "Starting normalization process...";
                           isError := false |} (withButtonDisabled true st)))
    with (startedState st).
  change (withResults []
            (withStatus {| message := "Starting normalization process...";
                           isError := false |} (withButtonDisabled true st')))
    with (startedState st').
  change (parsedData (startedState st)) with (parsedData st).
  change (parsedData (startedState st')) with (parsedData st'). rewrite Hrows.
  destruct (runChunks (S (List.length (parsedData st))) h column
              (List.length (parsedData st)) 0 (startedState st)) as [[final c]|];
    [|exact Hrun].
  destruct Hrun as [final' [Hrun [Hfinal [Hnormal Hdone]]]].
  exists final'. split; [exact Hrun|]. split; [exact Hfinal|].
  split; [exact Hnormal | exact (Hdone eq_refl)].
Qed.

(** With nothing queued at the yields, the run is the undisturbed
    one; the two halves of the file input's handler and of [initialize],
    run one right after the other, are the handlers as a whole. *)
Lemma fileInputChange_tasks (name : string) (outcome : ParseOutcome) (st : AppState) :
  fst (fileInputChange (Some (name, outcome)) st)
  = runTasks h [FileChosen (Some name); ParseSettled outcome] st.
Proof. now destruct outcome. Qed.

Lemma initialize_tasks (outcome : FetchOutcome) (st : AppState) :
  fst (initialize h outcome st)
  = runTasks h [FetchSettled outcome]
      (withStatus {| message := "Loading AI knowledge base..."; isError := false |} st).
Proof. reflexivity. Qed.

Lemma processDataWith_idle (st : AppState) :
  processDataWith h column [] st = processData h column st.
Proof.
  unfold processData, processDataWith. cbv zeta.
  generalize (S (List.length
                   (parsedData
                      (withResults []
                         (withStatus {| message := "Starting normalization process...";
                                        isError := false |}
                            (withButtonDisabled true st)))))).
  generalize (List.length
                (parsedData
                   (withResults []
                      (withStatus {| message := "Starting normalization process...";
                                     isError := false |}
                         (withButtonDisabled true st))))).
  generalize 0.
  generalize (withResults []
                (withStatus {| message := "Starting normalization process...";
                               isError := false |}
                   (withButtonDisabled true st))).
  intros s pc total fuel. revert s pc.
  induction fuel as [|fuel IH]; intros s pc; [reflexivity|].
  cbn [runChunks runChunksWith hd tl runTasks fold_left].
  destruct (processChunk h column total pc s) as [s' [[next|]|m]]; auto.
Qed.

End EventLoop.





Example process_acme_rows :
  option_map (fun r => normalizedResults (fst r))
             (processData sampleHost "Firm" (parsedState acmeBase acmeRows))
  = Some acmeRecords.
Proof. vm_compute. reflexivity. Qed.

(** ** [cleanName]: what a cleaned string looks like *)

Section CodeUnits.

Lemma lowerChar_idempotent (c : ascii) : lowerChar (lowerChar c) = lowerChar c.
Proof. destruct c as [[|] [|] [|] [|] [|] [|] [|] [|]]; reflexivity. Qed.

Lemma space_not_word (c : ascii) : isSpace c = true -> isWordChar c = false.
Proof. destruct c as [[|] [|] [|] [|] [|] [|] [|] [|]]; vm_compute; congruence. Qed.

Lemma word_eqb_nonword (a c : ascii) :
  isWordChar a = true -> isWordChar c = false -> Ascii.eqb a c = false.
Proof.
  intros Ha Hc. destruct (Ascii.eqb_spec a c) as [->|]; [congruence | reflexivity].
Qed.

End CodeUnits.

Section AllChars.

Variable p : ascii -> bool.

Lemma allChars_mapString (f : ascii -> ascii) (s : string) :
  (forall c, p (f c) = true) -> allChars p (mapString f s) = true.
Proof.
  intros Hf. induction s as [|c r IH]; simpl; [reflexivity|]. now rewrite Hf, IH.
Qed.

Lemma allChars_filterString (keep : ascii -> bool) (s : string) :
  allChars p s = true -> allChars p (filterString keep s) = true.
Proof.
  induction s as [|c r IH]; simpl; [reflexivity|].
  intros H. apply andb_true_iff in H as [Hc Hr].
  destruct (keep c); simpl; [rewrite Hc|]; auto.
Qed.

Lemma allChars_filtered (s : string) : allChars p (filterString p s) = true.
Proof.
  induction s as [|c r IH]; simpl; [reflexivity|].
  destruct (p c) eqn:E; simpl; [rewrite E|]; auto.
Qed.

Lemma allChars_replaceSuffixes (s : string) : forall skip prev,
  allChars p s = true -> allChars p (replaceSuffixes skip prev s) = true.
Proof.
  induction s as [|c r IH]; intros skip prev H; [reflexivity|].
  simpl in H. apply andb_true_iff in H as [Hc Hr].
  cbn [replaceSuffixes]. destruct skip as [|k]; [|auto].
  destruct (matchSuffixAt prev (String c r)) as [[|k]|];
    cbn [allChars]; try rewrite Hc; cbn [andb]; auto.
Qed.

Lemma allChars_collapseFrom (s : string) : forall inRun,
  p " "%char = true -> allChars p s = true -> allChars p (collapseFrom inRun s) = true.
Proof.
  induction s as [|c r IH]; intros inRun Hsp H; simpl; [reflexivity|].
  simpl in H. apply andb_true_iff in H as [Hc Hr].
  destruct (isSpace c); [destruct inRun|]; simpl;
    try rewrite Hsp; try rewrite Hc; simpl; auto.
Qed.

Lemma allChars_trimStart (s : string) :
  allChars p s = true -> allChars p (trimStart s) = true.
Proof.
  induction s as [|c r IH]; simpl; [reflexivity|].
  intros H. destruct (isSpace c); [|exact H].
  apply andb_true_iff in H as [_ Hr]. auto.
Qed.

Lemma allChars_trimEnd (s : string) :
  allChars p s = true -> allChars p (trimEnd s) = true.
Proof.
  induction s as [|c r IH]; simpl; [reflexivity|].
  intros H. apply andb_true_iff in H as [Hc Hr].
  destruct (isSpace c && isEmpty (trimEnd r))%bool; simpl; [reflexivity|].
  now rewrite Hc, IH.
Qed.

(** Every step of [cleanString] after the first keeps a property of the
    code units that SPACE has. *)
Lemma allChars_cleaned (s : string) :
  p " "%char = true ->
  allChars p s = true ->
  allChars p (trim (collapseSpaces (removeSuffixes s))) = true.
Proof.
  intros Hsp H. unfold trim, collapseSpaces, removeSuffixes.
  apply allChars_trimEnd, allChars_trimStart, allChars_collapseFrom; [assumption|].
  now apply allChars_replaceSuffixes.
Qed.

End AllChars.

Lemma mapString_fixed (f : ascii -> ascii) (s : string) :
  allChars (fun c => Ascii.eqb (f c) c) s = true -> mapString f s = s.
Proof.
  induction s as [|c r IH]; simpl; [reflexivity|].
  intros H. apply andb_true_iff in H as [Hc Hr].
  apply Ascii.eqb_eq in Hc. now rewrite Hc, IH.
Qed.

Lemma filterString_fixed (keep : ascii -> bool) (s : string) :
  allChars keep s = true -> filterString keep s = s.
Proof.
  induction s as [|c r IH]; simpl; [reflexivity|].
  intros H. apply andb_true_iff in H as [Hc Hr]. now rewrite Hc, IH.
Qed.

(** A cleaned string is in lower case and free of punctuation. *)
Lemma cleanString_lower (s : string) : toLowerCase (cleanString s) = cleanString s.
Proof.
  apply mapString_fixed. unfold cleanString.
  apply allChars_cleaned; [reflexivity|].
  apply allChars_filterString. apply allChars_mapString.
  intros c. rewrite lowerChar_idempotent. apply Ascii.eqb_refl.
Qed.

Lemma cleanString_no_punctuation (s : string) :
  removePunctuation (cleanString s) = cleanString s.
Proof.
  apply filterString_fixed. unfold cleanString.
  apply allChars_cleaned; [reflexivity|].
  apply allChars_filtered.
Qed.

Section Spacing.

Lemma singleSpaced_collapseFrom (s : string) : forall inRun,
  singleSpaced inRun (collapseFrom inRun s) = true.
Proof.
  induction s as [|c r IH]; intros inRun; simpl; [reflexivity|].
  destruct (isSpace c) eqn:E.
  - destruct inRun; [apply IH|]. simpl. apply IH.
  - simpl. rewrite E. apply IH.
Qed.

Lemma collapseFrom_fixed (s : string) : forall inRun,
  singleSpaced inRun s = true -> collapseFrom inRun s = s.
Proof.
  induction s as [|c r IH]; intros inRun H; simpl in *; [reflexivity|].
  destruct (isSpace c).
  - apply andb_true_iff in H as [H Hr]. apply andb_true_iff in H as [Hc Hrun].
    apply Ascii.eqb_eq in Hc. subst c. destruct inRun; [discriminate|].
    now rewrite IH.
  - now rewrite IH.
Qed.

Lemma singleSpaced_trimStart (s : string) : forall afterSpace,
  singleSpaced afterSpace s = true -> singleSpaced false (trimStart s) = true.
Proof.
  induction s as [|c r IH]; intros afterSpace H; simpl in *; [reflexivity|].
  destruct (isSpace c) eqn:E.
  - apply andb_true_iff in H as [_ Hr]. eauto.
  - simpl. now rewrite E.
Qed.

Lemma singleSpaced_trimEnd (s : string) : forall afterSpace,
  singleSpaced afterSpace s = true -> singleSpaced afterSpace (trimEnd s) = true.
Proof.
  induction s as [|c r IH]; intros afterSpace H; simpl in *; [reflexivity|].
  destruct (isSpace c) eqn:E; simpl.
  - apply andb_true_iff in H as [H Hr].
    destruct (isEmpty (trimEnd r)); simpl; [reflexivity|].
    now rewrite E, H, IH.
  - rewrite E. auto.
Qed.

Lemma noLeadingSpace_trimStart (s : string) : noLeadingSpace (trimStart s) = true.
Proof.
  induction s as [|c r IH]; simpl; [reflexivity|].
  destruct (isSpace c) eqn:E; [assumption|]. simpl. now rewrite E.
Qed.

Lemma trimStart_fixed (s : string) : noLeadingSpace s = true -> trimStart s = s.
Proof.
  destruct s as [|c r]; simpl; [reflexivity|]. now destruct (isSpace c).
Qed.

Lemma noLeadingSpace_trimEnd (s : string) :
  noLeadingSpace s = true -> noLeadingSpace (trimEnd s) = true.
Proof.
  destruct s as [|c r]; simpl; [reflexivity|].
  destruct (isSpace c) eqn:E; [discriminate|]. simpl. now rewrite E.
Qed.

Lemma trimEnd_idempotent (s : string) : trimEnd (trimEnd s) = trimEnd s.
Proof.
  induction s as [|c r IH]; simpl; [reflexivity|].
  destruct (isSpace c && isEmpty (trimEnd r))%bool eqn:E; [reflexivity|].
  simpl. now rewrite IH, E.
Qed.

Lemma trim_idempotent (s : string) : trim (trim s) = trim s.
Proof.
  unfold trim. rewrite trimStart_fixed.
  - apply trimEnd_idempotent.
  - apply noLeadingSpace_trimEnd, noLeadingSpace_trimStart.
Qed.

(** A cleaned string has single spaces only and none at either end. *)
Lemma cleanString_collapsed (s : string) :
  collapseSpaces (cleanString s) = cleanString s.
Proof.
  apply collapseFrom_fixed. unfold cleanString, trim.
  apply singleSpaced_trimEnd, (singleSpaced_trimStart _ false).
  apply singleSpaced_collapseFrom.
Qed.

Lemma cleanString_trimmed (s : string) : trim (cleanString s) = cleanString s.
Proof. unfold cleanString. apply trim_idempotent. Qed.

End Spacing.

(** ** [cleanName]: the suffix pattern *)

Section SuffixPattern.

(** An alternative made of word characters matches, closing [\b]
    included, exactly where it stands as a whole word. *)
Lemma matchAlternative_wholeWord (t : string) : forall s prev,
  allChars isWordChar t = true ->
  wordCharAt prev = true \/ t <> "" ->
  matchAlternative prev s t = if wholeWord t s then Some (String.length t) else None.
Proof.
  unfold matchAlternative.
  induction t as [|a t' IH]; intros s prev Hword Hstart.
  - destruct Hstart as [Hprev|Hne]; [|congruence].
    simpl. unfold wordBoundary. rewrite Hprev.
    destruct s as [|c r]; simpl; [reflexivity|]. now destruct (isWordChar c).
  - simpl in Hword. apply andb_true_iff in Hword as [Ha Hword].
    destruct s as [|c r]; [reflexivity|].
    cbn [String.prefix wholeWord String.length drop lastChar].
    destruct (ascii_dec a c) as [->|Hne].
    + rewrite Ascii.eqb_refl. cbn [andb].
      specialize (IH r (Some c) Hword (or_introl Ha)).
      destruct (String.prefix t' r); [|now destruct (wholeWord t' r)].
      destruct (wordBoundary (lastChar (Some c) t') (head (drop (String.length t') r)));
        destruct (wholeWord t' r); congruence.
    + apply Ascii.eqb_neq in Hne. now rewrite Hne.
Qed.

(** What a successful alternative tells about the text. *)
Lemma matchAlternative_Some (alt : string) (prev : option ascii) (s : string) (n : nat) :
  matchAlternative prev s alt = Some n ->
  n = String.length alt
  /\ wordBoundary (lastChar prev alt) (head (drop n s)) = true
  /\ match alt, s with
     | String a _, String c _ => a = c
     | String _ _, EmptyString => False
     | EmptyString, _ => True
     end.
Proof.
  unfold matchAlternative. intros H.
  destruct (String.prefix alt s) eqn:Hpre; [|discriminate].
  destruct (wordBoundary (lastChar prev alt) (head (drop (String.length alt) s))) eqn:Hb;
    [|discriminate].
  injection H as <-. repeat split; [assumption|].
  destruct alt as [|a alt']; [exact I|]. destruct s as [|c r]; simpl in Hpre.
  - discriminate.
  - now destruct (ascii_dec a c).
Qed.

Lemma firstAlternative_Some (prev : option ascii) (s : string) (alts : list string) (n : nat) :
  firstAlternative prev s alts = Some n ->
  exists alt, In alt alts /\ matchAlternative prev s alt = Some n.
Proof.
  induction alts as [|alt rest IH]; simpl; [discriminate|].
  destruct (matchAlternative prev s alt) as [m|] eqn:E.
  - intros [= <-]. eauto.
  - intros H. destruct (IH H) as [alt' [Hin Hm]]. eauto.
Qed.

Lemma firstAlternative_None (prev : option ascii) (s : string) (alts : list string) :
  firstAlternative prev s alts = None ->
  forall alt, In alt alts -> matchAlternative prev s alt = None.
Proof.
  induction alts as [|alt rest IH]; simpl; [intros _ ? []|].
  destruct (matchAlternative prev s alt) as [m|] eqn:E; [discriminate|].
  intros H alt' [<-|Hin]; auto.
Qed.

Lemma all_None_firstAlternative (prev : option ascii) (s : string) (alts : list string) :
  (forall alt, In alt alts -> matchAlternative prev s alt = None) ->
  firstAlternative prev s alts = None.
Proof.
  induction alts as [|alt rest IH]; simpl; intros H; [reflexivity|].
  rewrite (H alt (or_introl eq_refl)). auto.
Qed.

Lemma suffixAlternatives_wordEnded (alt : string) :
  In alt suffixAlternatives -> wordEnded alt = true.
Proof.
  assert (H : forallb wordEnded suffixAlternatives = true) by reflexivity.
  rewrite forallb_forall in H. apply H.
Qed.

Lemma singleWordAlternatives_words (t : string) :
  In t singleWordAlternatives ->
  allChars isWordChar t = true /\ t <> "" /\ In t suffixAlternatives.
Proof.
  assert (H : forallb (fun t => allChars isWordChar t && negb (isEmpty t)
                                && existsb (String.eqb t) suffixAlternatives)%bool
                      singleWordAlternatives = true) by reflexivity.
  rewrite forallb_forall in H. intros Hin. specialize (H t Hin).
  apply andb_true_iff in H as [H Hsuf]. apply andb_true_iff in H as [Hw Hne].
  repeat split; [assumption | now destruct t |].
  apply existsb_exists in Hsuf as [x [Hx Heq]]. apply String.eqb_eq in Heq. now subst.
Qed.

Lemma suffixAlternatives_kinds (alt : string) :
  In alt suffixAlternatives ->
  In alt singleWordAlternatives \/ alt = phraseAlternative.
Proof.
  unfold suffixAlternatives, singleWordAlternatives, phraseAlternative. simpl.
  intuition.
Qed.

(** A match of the pattern starts after a non-word position, on a word
    character, is not empty, and is followed by a non-word position. *)
Lemma matchSuffixAt_Some (prev : option ascii) (s : string) (n : nat) :
  matchSuffixAt prev s = Some n ->
  (exists k, n = S k)
  /\ wordCharAt prev = false
  /\ wordCharAt (head s) = true
  /\ wordCharAt (head (drop n s)) = false.
Proof.
  unfold matchSuffixAt.
  destruct (wordBoundary prev (head s)) eqn:Hb; [|discriminate].
  intros H. apply firstAlternative_Some in H as [alt [Hin Hm]].
  pose proof (@suffixAlternatives_wordEnded alt Hin) as Hgood.
  destruct (@matchAlternative_Some alt prev s n Hm) as [Hn [Hend Hhead]].
  destruct alt as [|a alt']; [discriminate|].
  simpl in Hgood. apply andb_true_iff in Hgood as [Ha Hlast].
  destruct s as [|c r]; [contradiction|]. subst c.
  assert (Hprev : wordCharAt prev = false).
  { unfold wordBoundary in Hb. simpl in Hb. rewrite Ha in Hb.
    now destruct (wordCharAt prev). }
  repeat split.
  - exists (String.length alt'). exact Hn.
  - exact Hprev.
  - exact Ha.
  - unfold wordBoundary in Hend. simpl lastChar in Hend. rewrite Hlast in Hend.
    now destruct (wordCharAt (head (drop n (String a r)))).
Qed.

Lemma matchSuffixAt_inside_word (prev : option ascii) (s : string) :
  wordCharAt prev = true -> matchSuffixAt prev s = None.
Proof.
  intros Hprev. destruct (matchSuffixAt prev s) as [n|] eqn:E; [|reflexivity].
  apply matchSuffixAt_Some in E as [_ [Hp _]]. congruence.
Qed.

(** Inside a word the scan copies up to the end of the word. *)
Lemma wholeWord_replaceSuffixes (s : string) : forall t prev,
  allChars isWordChar t = true ->
  wordCharAt prev = true ->
  wholeWord t (replaceSuffixes 0 prev s) = wholeWord t s.
Proof.
  induction s as [|c r IH]; intros t prev Ht Hprev; [reflexivity|].
  cbn [replaceSuffixes]. rewrite (@matchSuffixAt_inside_word prev (String c r) Hprev).
  destruct t as [|a t']; [reflexivity|].
  simpl in Ht. apply andb_true_iff in Ht as [Ha Ht].
  cbn [wholeWord]. destruct (Ascii.eqb_spec a c) as [->|]; [|reflexivity].
  cbn [andb]. now apply IH.
Qed.

Lemma wholeWord_nonword_head (t : string) (c : ascii) (x : string) :
  allChars isWordChar t = true -> t <> "" -> isWordChar c = false ->
  wholeWord t (String c x) = false.
Proof.
  destruct t as [|a t']; [congruence|]. simpl.
  intros Ht _ Hc. apply andb_true_iff in Ht as [Ha _].
  now rewrite (@word_eqb_nonword a c Ha Hc).
Qed.

Lemma singleAt_nonword_head (afterWord : bool) (c : ascii) (x : string) :
  isWordChar c = false -> singleAt afterWord (String c x) = false.
Proof.
  intros Hc. unfold singleAt. apply andb_false_iff. right.
  apply not_true_is_false. intros H.
  apply existsb_exists in H as [t [Hin Hw]].
  destruct (@singleWordAlternatives_words t Hin) as [Ht [Hne _]].
  now rewrite (@wholeWord_nonword_head t c x Ht Hne Hc) in Hw.
Qed.

End SuffixPattern.

Section SingleWords.

Lemma singleAt_after_word (s : string) : singleAt true s = false.
Proof. reflexivity. Qed.

Lemma singleOccurs_weaken (s : string) (afterWord : bool) :
  singleOccurs false s = false -> singleOccurs afterWord s = false.
Proof.
  destruct afterWord; [|trivial]. destruct s as [|c r]; simpl; [trivial|].
  intros H. apply orb_false_iff in H as [_ Hr]. exact Hr.
Qed.

(** After the scan no single-word alternative is left standing as a
    whole word.  [afterWord] describes the output before the current
    position, [prev] the input. *)
Lemma singleOccurs_replaceSuffixes (s : string) : forall skip prev afterWord,
  match skip with
  | O => afterWord = wordCharAt prev \/ wordCharAt (head s) = false
  | S _ => afterWord = false /\ wordCharAt (head (drop skip s)) = false
  end ->
  singleOccurs afterWord (replaceSuffixes skip prev s) = false.
Proof.
  induction s as [|c r IH]; intros skip prev afterWord Hinv; [reflexivity|].
  cbn [replaceSuffixes]. destruct skip as [|k].
  - destruct (matchSuffixAt prev (String c r)) as [n|] eqn:Hm.
    + destruct (matchSuffixAt_Some _ _ Hm) as [[k ->] [Hprev [Hc Hend]]].
      simpl in Hc. apply IH.
      assert (Hafter : afterWord = false).
      { destruct Hinv as [->|Hhead]; [assumption | simpl in Hhead; congruence]. }
      destruct k as [|k']; [right | split]; assumption.
    + cbn [singleOccurs]. apply orb_false_iff. split.
      * destruct afterWord; [reflexivity|].
        destruct (isWordChar c) eqn:Hc; [|now apply singleAt_nonword_head].
        assert (Hprev : wordCharAt prev = false).
        { destruct Hinv as [<-|Hhead]; [reflexivity | simpl in Hhead; congruence]. }
        unfold singleAt. cbn [negb andb]. apply not_true_is_false. intros H.
        apply existsb_exists in H as [t [Hin Hw]].
        destruct (@singleWordAlternatives_words t Hin) as [Ht [Hne Hsuf]].
        assert (Hinput : wholeWord t (String c r) = true).
        { destruct t as [|a t']; [congruence|].
          simpl in Ht. apply andb_true_iff in Ht as [_ Ht].
          cbn [wholeWord] in *. apply andb_true_iff in Hw as [Hac Hw].
          rewrite Hac. cbn [andb].
          now rewrite <- (wholeWord_replaceSuffixes r t' (Some c) Ht Hc). }
        unfold matchSuffixAt in Hm. unfold wordBoundary in Hm at 1.
        simpl wordCharAt in Hm. rewrite Hprev, Hc in Hm. cbn [xorb] in Hm.
        pose proof (firstAlternative_None _ _ _ Hm t Hsuf) as Hnone.
        rewrite (@matchAlternative_wholeWord t (String c r) prev Ht (or_intror Hne)),
          Hinput in Hnone.
        discriminate.
      * apply IH. now left.
  - apply IH. destruct Hinv as [Hafter Hend].
    destruct k as [|k']; [right | split]; assumption.
Qed.

Lemma wholeWord_collapseFrom (s : string) : forall t,
  allChars isWordChar t = true ->
  wholeWord t (collapseFrom false s) = wholeWord t s.
Proof.
  induction s as [|c r IH]; intros t Ht; [reflexivity|].
  cbn [collapseFrom]. destruct (isSpace c) eqn:Hsp.
  - pose proof (space_not_word c Hsp) as Hc.
    destruct t as [|a t']; simpl; [now rewrite Hc|].
    simpl in Ht. apply andb_true_iff in Ht as [Ha _].
    rewrite (@word_eqb_nonword a c Ha Hc).
    now rewrite (@word_eqb_nonword a " "%char Ha eq_refl).
  - destruct t as [|a t']; [reflexivity|].
    simpl in Ht. apply andb_true_iff in Ht as [_ Ht].
    cbn [wholeWord]. now rewrite IH.
Qed.

Lemma wholeWord_trimEnd (s : string) : forall t,
  allChars isWordChar t = true ->
  wholeWord t (trimEnd s) = wholeWord t s.
Proof.
  induction s as [|c r IH]; intros t Ht; [reflexivity|].
  cbn [trimEnd]. destruct (isSpace c && isEmpty (trimEnd r))%bool eqn:E.
  - apply andb_true_iff in E as [Hsp _].
    pose proof (space_not_word c Hsp) as Hc.
    destruct t as [|a t']; simpl; [now rewrite Hc|].
    simpl in Ht. apply andb_true_iff in Ht as [Ha _].
    now rewrite (@word_eqb_nonword a c Ha Hc).
  - destruct t as [|a t']; [reflexivity|].
    simpl in Ht. apply andb_true_iff in Ht as [_ Ht].
    cbn [wholeWord]. now rewrite IH.
Qed.

(** [singleAt] looks at the word that starts the string only. *)
Lemma singleAt_tail (afterWord : bool) (c : ascii) (r r' : string) :
  (forall t, allChars isWordChar t = true -> wholeWord t r' = wholeWord t r) ->
  singleAt afterWord (String c r') = singleAt afterWord (String c r).
Proof.
  intros Hsame. unfold singleAt. f_equal.
  assert (Hext : forall l : list string,
             (forall t, In t l -> wholeWord t (String c r') = wholeWord t (String c r)) ->
             existsb (fun t => wholeWord t (String c r')) l
             = existsb (fun t => wholeWord t (String c r)) l).
  { induction l as [|t l IH]; intros H; simpl; [reflexivity|].
    rewrite (H t (or_introl eq_refl)), IH; [reflexivity|].
    intros t' Ht'. apply H. now right. }
  apply Hext. intros t Hin.
  destruct (@singleWordAlternatives_words t Hin) as [Ht [Hne _]].
  destruct t as [|a t']; [congruence|].
  simpl in Ht. apply andb_true_iff in Ht as [_ Ht].
  cbn [wholeWord]. now rewrite Hsame.
Qed.

Lemma singleOccurs_collapseFrom (s : string) : forall afterWord inRun,
  singleOccurs afterWord s = false ->
  singleOccurs afterWord (collapseFrom inRun s) = false.
Proof.
  induction s as [|c r IH]; intros afterWord inRun H; [reflexivity|].
  cbn [singleOccurs] in H. apply orb_false_iff in H as [Hat Hr].
  cbn [collapseFrom]. destruct (isSpace c) eqn:Hsp.
  - rewrite (space_not_word c Hsp) in Hr. destruct inRun.
    + apply singleOccurs_weaken. now apply IH.
    + cbn [singleOccurs]. rewrite singleAt_nonword_head by reflexivity.
      now apply IH.
  - cbn [singleOccurs].
    rewrite (@singleAt_tail afterWord c r _ (wholeWord_collapseFrom r)), Hat.
    now apply IH.
Qed.

Lemma singleOccurs_trimStart (s : string) :
  singleOccurs false s = false -> singleOccurs false (trimStart s) = false.
Proof.
  induction s as [|c r IH]; intros H; [reflexivity|].
  cbn [trimStart]. destruct (isSpace c) eqn:Hsp; [|exact H].
  cbn [singleOccurs] in H. apply orb_false_iff in H as [_ Hr].
  rewrite (space_not_word c Hsp) in Hr. auto.
Qed.

Lemma singleOccurs_trimEnd (s : string) : forall afterWord,
  singleOccurs afterWord s = false -> singleOccurs afterWord (trimEnd s) = false.
Proof.
  induction s as [|c r IH]; intros afterWord H; [reflexivity|].
  cbn [singleOccurs] in H. apply orb_false_iff in H as [Hat Hr].
  cbn [trimEnd]. destruct (isSpace c && isEmpty (trimEnd r))%bool; [reflexivity|].
  cbn [singleOccurs].
  rewrite (@singleAt_tail afterWord c r _ (wholeWord_trimEnd r)), Hat. now apply IH.
Qed.

(** No single-word alternative stands as a whole word in a cleaned
    string. *)
Lemma cleanString_no_single_word (s : string) :
  singleOccurs false (cleanString s) = false.
Proof.
  unfold cleanString, trim, collapseSpaces, removeSuffixes.
  apply singleOccurs_trimEnd, singleOccurs_trimStart, singleOccurs_collapseFrom.
  apply singleOccurs_replaceSuffixes. now left.
Qed.

End SingleWords.

Section Idempotence.

Lemma replaceSuffixes_fixed (s : string) : forall prev,
  suffixOccurs prev s = false -> replaceSuffixes 0 prev s = s.
Proof.
  induction s as [|c r IH]; intros prev H; [reflexivity|].
  cbn [suffixOccurs replaceSuffixes] in *.
  destruct (matchSuffixAt prev (String c r)); [discriminate|].
  now rewrite IH.
Qed.

(** The pattern matches nowhere once neither a single-word alternative
    nor the two-word one stands as whole words. *)
Lemma suffixOccurs_kinds (s : string) : forall prev,
  singleOccurs (wordCharAt prev) s = false ->
  phraseOccurs prev s = false ->
  suffixOccurs prev s = false.
Proof.
  induction s as [|c r IH]; intros prev Hsingle Hphrase; [reflexivity|].
  cbn [singleOccurs phraseOccurs suffixOccurs] in *.
  apply orb_false_iff in Hsingle as [Hat Hsingle].
  apply orb_false_iff in Hphrase as [Hhere Hphrase].
  assert (Hnone : matchSuffixAt prev (String c r) = None).
  { unfold matchSuffixAt. cbn [head].
    destruct (wordBoundary prev (Some c)) eqn:Hb; [|reflexivity].
    apply all_None_firstAlternative. intros alt Hin.
    destruct (@suffixAlternatives_kinds alt Hin) as [Hs| ->].
    - destruct (@singleWordAlternatives_words alt Hs) as [Ht [Hne _]].
      rewrite (@matchAlternative_wholeWord alt (String c r) prev Ht (or_intror Hne)).
      destruct (wholeWord alt (String c r)) eqn:Hw; [|reflexivity].
      exfalso.
      assert (Hc : isWordChar c = true).
      { destruct (isWordChar c) eqn:E; [reflexivity|].
        now rewrite (@wholeWord_nonword_head alt c r Ht Hne E) in Hw. }
      unfold wordBoundary in Hb. simpl in Hb. rewrite Hc in Hb.
      destruct (wordCharAt prev); [discriminate|].
      unfold singleAt in Hat. cbn [negb andb] in Hat.
      assert (Hex : existsb (fun t => wholeWord t (String c r)) singleWordAlternatives
                    = true)
        by (apply existsb_exists; eauto).
      congruence.
    - cbn [andb] in Hhere.
      now destruct (matchAlternative prev (String c r) phraseAlternative). }
  rewrite Hnone. now apply IH.
Qed.

Lemma cleanString_fixed (s : string) :
  phraseOccurs None (cleanString s) = false ->
  cleanString (cleanString s) = cleanString s.
Proof.
  intros Hphrase. unfold cleanString at 1.
  rewrite cleanString_lower, cleanString_no_punctuation.
  unfold removeSuffixes. rewrite replaceSuffixes_fixed.
  - rewrite cleanString_collapsed. apply cleanString_trimmed.
  - apply suffixOccurs_kinds; [apply cleanString_no_single_word | assumption].
Qed.

Lemma cleanName_VStr (s : string) :
  cleanName (VStr s) = if String.eqb s "" then "" else cleanString s.
Proof. unfold cleanName. simpl. now destruct (String.eqb s ""). Qed.

(** C4, as amended: cleaning the cleaned form of [s] changes nothing,
    provided the cleaned form does not contain "national association" as
    whole words. *)
Theorem cleanName_idempotent_without_phrase (s : string) :
  phraseOccurs None (cleanName (VStr s)) = false ->
  cleanName (VStr (cleanName (VStr s))) = cleanName (VStr s).
Proof.
  rewrite (cleanName_VStr s). destruct (String.eqb s ""); [reflexivity|].
  intros Hphrase. rewrite cleanName_VStr.
  destruct (String.eqb_spec (cleanString s) "") as [Hempty|_]; [now rewrite Hempty|].
  now apply cleanString_fixed.
Qed.

Lemma cleanName_idempotent_without_phrase_witness :
  phraseOccurs None (cleanName (VStr "  Acme, Inc. (NA) ")) = false
  /\ cleanName (VStr (cleanName (VStr "  Acme, Inc. (NA) ")))
     = cleanName (VStr "  Acme, Inc. (NA) ").
Proof.
  assert (H : phraseOccurs None (cleanName (VStr "  Acme, Inc. (NA) ")) = false)
    by reflexivity.
  exact (conj H (cleanName_idempotent_without_phrase "  Acme, Inc. (NA) " H)).
Defined.

(** C4 as stated: stripping "bank" leaves "national association" behind,
    which a second pass strips in turn. *)
Lemma cleanName_idempotent_counterexample :
  cleanName (VStr "First National Bank Association") = "first national association"
  /\ cleanName (VStr (cleanName (VStr "First National Bank Association"))) = "first"
  /\ cleanName (VStr "national  association") = "national association"
  /\ cleanName (VStr (cleanName (VStr "national  association"))) = "".
Proof. repeat split; reflexivity. Qed.

End Idempotence.

Lemma standardizeName_returns_label_witness :
  inheritedKey (cleanName (VStr "Acme Holdings")) = false
  /\ exists label,
       standardizeName (loaded acmeBase (exactMatches (allKnownVariants acmeBase) 0))
         (VStr "Acme Holdings") = Normal (VStr label)
       /\ label <> "".
Proof.
  assert (Hinh : inheritedKey (cleanName (VStr "Acme Holdings")) = false)
    by reflexivity.
  assert (Hlabels : forall k label,
             getOwn (variants acmeBase) k = Some label -> label <> "").
  { intros k label H. unfold acmeBase in H. cbn [variants getOwn] in H. revert H.
    destruct (String.eqb "acme" k); intros H; [|discriminate H].
    injection H as <-. intros Hempty. discriminate Hempty. }
  exact (conj Hinh
           (@standardizeName_returns_label
              (loaded acmeBase (exactMatches (allKnownVariants acmeBase) 0))
              acmeBase (exactMatches (allKnownVariants acmeBase) 0)
              (VStr "Acme Holdings") eq_refl eq_refl Hlabels eq_refl
              (fun q r => @exactMatches_items (allKnownVariants acmeBase) 0 q r)
              Hinh)).
Defined.

(** ** [cleanName]: when a second pass still finds something *)

Section SecondPass.

Lemma length_replaceSuffixes (s : string) : forall skip prev,
  String.length (replaceSuffixes skip prev s) <= String.length s.
Proof.
  induction s as [|c r IH]; intros skip prev; [reflexivity|].
  cbn [replaceSuffixes]. destruct skip as [|k].
  - destruct (matchSuffixAt prev (String c r)) as [[|k]|]; cbn [String.length];
      try apply le_n_S; try apply le_S; apply IH.
  - cbn [String.length]. apply le_S, IH.
Qed.

Lemma length_replaceSuffixes_lt (s : string) : forall prev,
  suffixOccurs prev s = true ->
  String.length (replaceSuffixes 0 prev s) < String.length s.
Proof.
  induction s as [|c r IH]; intros prev H; [discriminate|].
  cbn [suffixOccurs replaceSuffixes] in *.
  destruct (matchSuffixAt prev (String c r)) as [n|] eqn:Hm.
  - destruct (matchSuffixAt_Some _ _ Hm) as [[k ->] _].
    cbn [String.length]. apply le_n_S, length_replaceSuffixes.
  - cbn [String.length]. apply -> Nat.succ_lt_mono. now apply IH.
Qed.

Lemma length_filterString (keep : ascii -> bool) (s : string) :
  String.length (filterString keep s) <= String.length s.
Proof.
  induction s as [|c r IH]; simpl; [reflexivity|].
  destruct (keep c); simpl; lia.
Qed.

Lemma length_collapseFrom (s : string) : forall inRun,
  String.length (collapseFrom inRun s) <= String.length s.
Proof.
  induction s as [|c r IH]; intros inRun; simpl; [reflexivity|].
  destruct (isSpace c); [destruct inRun|]; simpl;
    try apply le_n_S; try apply le_S; apply IH.
Qed.

Lemma length_trimStart (s : string) :
  String.length (trimStart s) <= String.length s.
Proof.
  induction s as [|c r IH]; simpl; [reflexivity|].
  destruct (isSpace c); simpl; lia.
Qed.

Lemma length_trimEnd (s : string) :
  String.length (trimEnd s) <= String.length s.
Proof.
  induction s as [|c r IH]; simpl; [reflexivity|].
  destruct (isSpace c && isEmpty (trimEnd r))%bool; simpl; lia.
Qed.

Lemma phraseOccurs_suffixOccurs (s : string) : forall prev,
  phraseOccurs prev s = true -> suffixOccurs prev s = true.
Proof.
  induction s as [|c r IH]; intros prev H; [discriminate|].
  cbn [phraseOccurs suffixOccurs] in *.
  destruct (matchSuffixAt prev (String c r)) as [n|] eqn:Hm; [reflexivity|].
  apply orb_true_iff in H as [Hhere|Hlater]; [|now apply IH].
  exfalso. apply andb_true_iff in Hhere as [Hb Hmatch].
  unfold matchSuffixAt in Hm. cbn [head] in Hm. rewrite Hb in Hm.
  assert (Hin : In phraseAlternative suffixAlternatives)
    by (unfold suffixAlternatives, phraseAlternative; simpl; tauto).
  rewrite (firstAlternative_None _ _ _ Hm phraseAlternative Hin) in Hmatch.
  discriminate.
Qed.

(** The amendment of C4 cannot be relaxed: when the cleaned form does
    contain "national association" as whole words, cleaning it again
    yields a strictly shorter string. *)
Theorem cleanName_second_pass_shrinks (s : string) :
  phraseOccurs None (cleanName (VStr s)) = true ->
  String.length (cleanName (VStr (cleanName (VStr s))))
  < String.length (cleanName (VStr s)).
Proof.
  rewrite (cleanName_VStr s). destruct (String.eqb s ""); [discriminate|].
  intros Hphrase. rewrite cleanName_VStr.
  destruct (String.eqb_spec (cleanString s) "") as [Hempty|_].
  { rewrite Hempty in Hphrase. discriminate. }
  unfold cleanString at 1.
  rewrite cleanString_lower, cleanString_no_punctuation.
  unfold trim, collapseSpaces, removeSuffixes.
  eapply Nat.le_lt_trans; [apply length_trimEnd|].
  eapply Nat.le_lt_trans; [apply length_trimStart|].
  eapply Nat.le_lt_trans; [apply length_collapseFrom|].
  apply length_replaceSuffixes_lt. now apply phraseOccurs_suffixOccurs.
Qed.

End SecondPass.

Lemma cleanName_second_pass_shrinks_witness :
  phraseOccurs None (cleanName (VStr "First National Bank Association")) = true
  /\ String.length
       (cleanName (VStr (cleanName (VStr "First National Bank Association"))))
     < String.length (cleanName (VStr "First National Bank Association")).
Proof.
  assert (H : phraseOccurs None (cleanName (VStr "First National Bank Association"))
              = true) by reflexivity.
  exact (conj H (cleanName_second_pass_shrinks "First National Bank Association" H)).
Defined.

(** ** [cleanName]: the shape of its results *)

Section CanonicalForm.

Lemma cleanName_cleanString (s : string) : cleanName (VStr s) = cleanString s.
Proof. rewrite cleanName_VStr. now destruct (String.eqb_spec s "") as [->|]. Qed.

Lemma cleanName_not_string (name : jsval) :
  (forall s, name <> VStr s) -> cleanName name = "".
Proof. destruct name; try reflexivity. intros H. now destruct (H s). Qed.

Lemma length_mapString (f : ascii -> ascii) (s : string) :
  String.length (mapString f s) = String.length s.
Proof. induction s as [|c r IH]; simpl; congruence. Qed.

Lemma length_cleanString (s : string) : String.length (cleanString s) <= String.length s.
Proof.
  unfold cleanString, trim, collapseSpaces, removeSuffixes, removePunctuation, toLowerCase.
  eapply Nat.le_trans; [apply length_trimEnd|].
  eapply Nat.le_trans; [apply length_trimStart|].
  eapply Nat.le_trans; [apply length_collapseFrom|].
  eapply Nat.le_trans; [apply length_replaceSuffixes|].
  eapply Nat.le_trans; [apply length_filterString|].
  now rewrite length_mapString.
Qed.

Lemma cleanChar_prepared (s : string) :
  allChars cleanChar (removePunctuation (toLowerCase s)) = true.
Proof.
  unfold removePunctuation, toLowerCase.
  induction s as [|c r IH]; simpl; [reflexivity|].
  destruct (isPunctuation (lowerChar c)) eqn:E; simpl; [exact IH|].
  unfold cleanChar at 1. now rewrite lowerChar_idempotent, Ascii.eqb_refl, E, IH.
Qed.

Lemma cleanString_singleSpaced (s : string) : singleSpaced false (cleanString s) = true.
Proof.
  unfold cleanString, trim.
  apply singleSpaced_trimEnd, (singleSpaced_trimStart _ false).
  apply singleSpaced_collapseFrom.
Qed.

(** For every input value that is not a string, or is a string of
    code units up to U+00FF, the result of [cleanName] is in lower case,
    free of the punctuation characters, spaced by single SPACEs with none
    at either end, holds none of the single-word suffixes as a whole word,
    and is not longer than the input string. *)
Theorem cleanName_canonical_form (name : jsval) :
  allChars cleanChar (cleanName name) = true
  /\ singleSpaced false (cleanName name) = true
  /\ trim (cleanName name) = cleanName name
  /\ singleOccurs false (cleanName name) = false
  /\ String.length (cleanName name)
     <= match name with VStr s => String.length s | _ => 0 end.
Proof.
  destruct name as [| |b|x|s|r]; try (repeat split; reflexivity).
  rewrite cleanName_cleanString. repeat split.
  - unfold cleanString. apply allChars_cleaned; [reflexivity | apply cleanChar_prepared].
  - apply cleanString_singleSpaced.
  - apply cleanString_trimmed.
  - apply cleanString_no_single_word.
  - apply length_cleanString.
Qed.

Lemma isPunctuation_lowerChar (c : ascii) : isPunctuation (lowerChar c) = isPunctuation c.
Proof. destruct c as [[|] [|] [|] [|] [|] [|] [|] [|]]; reflexivity. Qed.

Lemma toLowerCase_idempotent (s : string) : toLowerCase (toLowerCase s) = toLowerCase s.
Proof.
  unfold toLowerCase. induction s as [|c r IH]; simpl; [reflexivity|].
  now rewrite lowerChar_idempotent, IH.
Qed.

Lemma removePunctuation_toLowerCase (s : string) :
  removePunctuation (toLowerCase (removePunctuation s))
  = removePunctuation (toLowerCase s).
Proof.
  unfold removePunctuation, toLowerCase.
  induction s as [|c r IH]; simpl; [reflexivity|].
  destruct (isPunctuation c) eqn:E; simpl.
  - now rewrite isPunctuation_lowerChar, E.
  - rewrite isPunctuation_lowerChar, E. simpl. now rewrite IH.
Qed.

(** Upper case and the punctuation characters play no part: a name, its
    lower-cased form and its form without [. , & ( )] clean alike. *)
Theorem cleanName_ignores_case_and_punctuation (s : string) :
  cleanName (VStr (toLowerCase s)) = cleanName (VStr s)
  /\ cleanName (VStr (removePunctuation s)) = cleanName (VStr s).
Proof.
  rewrite !cleanName_cleanString. unfold cleanString. split.
  - now rewrite toLowerCase_idempotent.
  - now rewrite removePunctuation_toLowerCase.
Qed.

Lemma iter_shift (f : string -> string) (n : nat) (x : string) :
  Nat.iter n f (f x) = Nat.iter (S n) f x.
Proof. induction n as [|n IH]; simpl in *; congruence. Qed.

Lemma cleanPass_settles (k : nat) : forall x,
  String.length (cleanPass x) <= k ->
  exists n, n <= k
            /\ cleanPass (Nat.iter (S n) cleanPass x) = Nat.iter (S n) cleanPass x.
Proof.
  unfold cleanPass.
  induction k as [|k IH]; intros x Hlen.
  - exists 0. split; [lia|].
    change (Nat.iter 1 (fun s => cleanName (VStr s)) x) with (cleanName (VStr x)).
    destruct (cleanName (VStr x)) as [|c r]; [reflexivity | simpl in Hlen; lia].
  - destruct (phraseOccurs None (cleanName (VStr x))) eqn:Hphrase.
    + assert (Hshrink : String.length (cleanName (VStr (cleanName (VStr x))))
                        < String.length (cleanName (VStr x))).
      { rewrite !cleanName_cleanString in *. unfold cleanString at 1.
        rewrite cleanString_lower, cleanString_no_punctuation.
        unfold trim, collapseSpaces, removeSuffixes.
        eapply Nat.le_lt_trans; [apply length_trimEnd|].
        eapply Nat.le_lt_trans; [apply length_trimStart|].
        eapply Nat.le_lt_trans; [apply length_collapseFrom|].
        apply length_replaceSuffixes_lt. now apply phraseOccurs_suffixOccurs. }
      destruct (IH (cleanName (VStr x))) as [n [Hn Hfix]]; [lia|].
      exists (S n). split; [lia|].
      rewrite <- (iter_shift (fun s => cleanName (VStr s)) (S n) x). exact Hfix.
    + exists 0. split; [lia|].
      change (Nat.iter 1 (fun s => cleanName (VStr s)) x) with (cleanName (VStr x)).
      rewrite !cleanName_cleanString in *. now apply cleanString_fixed.
Qed.

(** Cleaning again and again settles: within at most [length s] further
    passes after the first, the result is a fixed point of [cleanName]. *)
Theorem cleanName_settles (s : string) :
  exists n,
    n <= String.length s
    /\ cleanPass (Nat.iter (S n) cleanPass s) = Nat.iter (S n) cleanPass s.
Proof.
  apply cleanPass_settles. unfold cleanPass.
  rewrite cleanName_cleanString. apply length_cleanString.
Qed.

End CanonicalForm.

(** ** [standardizeName]: when it raises, and what it depends on *)

Section StandardizeEdges.


(** The read [knowledgeBase.variants[k]] raises or not whatever [k]
    is; when it raises, it raises a [TypeError]. *)
Lemma readVariant_Throw (stored : option Document) (k m : string) :
  readVariant stored k = Throw m
  <-> m = TypeError
      /\ (stored = None
          \/ exists doc, stored = Some doc /\ variantsField doc = NoVariants).
Proof.
  unfold readVariant. destruct stored as [doc|].
  - destruct (variantsField doc) eqn:Hfield.
    + split; [intros [= <-]; split; [reflexivity | right; eauto] | now intros [-> _]].
    + split; [discriminate|].
      intros [_ [H|[doc' [[= <-] H]]]]; [discriminate | congruence].
    + split; [discriminate|].
      intros [_ [H|[doc' [[= <-] H]]]]; [discriminate | congruence].
  - split; [intros [= <-]; split; [reflexivity | now left] | now intros [-> _]].
Qed.

Lemma readVariant_again (stored : option Document) (k k' : string) (v : jsval) :
  readVariant stored k = Normal v -> exists v', readVariant stored k' = Normal v'.
Proof.
  unfold readVariant. destruct stored as [doc|]; [|discriminate].
  destruct (variantsField doc); [discriminate | eauto | eauto].
Qed.

Lemma fuzzyMatch_Throw (stored : option Document) (index : option FuseIndex)
  (cleaned k m : string) (v : jsval) :
  readVariant stored k = Normal v ->
  (fuzzyMatch stored index cleaned = Throw m <-> m = TypeError /\ index = None).
Proof.
  intros Hread. unfold fuzzyMatch. destruct index as [search|].
  - destruct (search cleaned) as [|best rest];
      [|destruct (PrimFloat.ltb (score best) confidenceThreshold);
        [destruct (readVariant_again stored k (item best) Hread) as [v' ->]|]];
      split; try discriminate; intros [_ H]; discriminate H.
  - split; [intros [= <-]; now split | intros [-> _]; reflexivity].
Qed.

(** [standardizeName] raises in three situations only, each with a
    [TypeError] and a cleaned name that is not empty: [knowledgeBase] is
    still [null]; the stored document has no [variants] (absent or
    [null]); or the exact lookup finds nothing truthy and the Fuse index
    is still [null]. *)
Theorem standardizeName_raises_iff (st : AppState) (x : jsval) (m : string) :
  standardizeName st x = Throw m
  <-> m = TypeError
      /\ cleanName x <> ""
      /\ (knowledgeBase st = None
          \/ (exists doc,
                 knowledgeBase st = Some doc /\ variantsField doc = NoVariants)
          \/ (exists label,
                 readVariant (knowledgeBase st) (cleanName x) = Normal label
                 /\ truthy label = false
                 /\ fuse st = None)).
Proof.
  destruct (String.eqb_spec (cleanName x) "") as [Hempty|Hne].
  - rewrite (standardizeName_empty_key st x Hempty).
    split; [discriminate | intros [_ [H _]]; contradiction].
  - rewrite (standardizeName_read st x Hne).
    destruct (readVariant (knowledgeBase st) (cleanName x)) as [label|m'] eqn:Hread;
      cbn [bind].
    + assert (Hset : ~ (knowledgeBase st = None
                        \/ exists doc, knowledgeBase st = Some doc
                                       /\ variantsField doc = NoVariants)).
      { intros H.
        assert (Hthrow : readVariant (knowledgeBase st) (cleanName x) = Throw TypeError)
          by (apply readVariant_Throw; now split).
        congruence. }
      destruct (truthy label) eqn:Hlabel.
      * split; [discriminate|].
        intros [_ [_ [H|[H|[label' [[= <-] [Hfalsy _]]]]]]];
          [exfalso; apply Hset; now left | exfalso; apply Hset; now right | congruence].
      * rewrite (@fuzzyMatch_Throw (knowledgeBase st) (fuse st) (cleanName x)
                   (cleanName x) m label Hread). split.
        -- intros [-> Hfuse]. repeat split; [assumption|]. right. right. eauto.
        -- intros [-> [_ [H|[H|[label' [_ [_ Hfuse]]]]]]];
             [exfalso; apply Hset; now left | exfalso; apply Hset; now right
             | now split].
    + apply readVariant_Throw in Hread as [-> Hwhy]. split.
      * intros [= <-]. repeat split; [assumption|].
        destruct Hwhy as [H|H]; [now left | right; now left].
      * now intros [-> _].
Qed.

(** Two inputs with the same cleaned form are standardized alike. *)
Theorem standardizeName_by_cleaned_form (st : AppState) (a b : jsval) :
  cleanName a = cleanName b ->
  standardizeName st a = standardizeName st b.
Proof.
  intros Heq. destruct (String.eqb_spec (cleanName a) "") as [Hempty|Hne].
  - rewrite (standardizeName_empty_key st a Hempty).
    rewrite Heq in Hempty. now rewrite (standardizeName_empty_key st b Hempty).
  - unfold standardizeName.
    rewrite (truthy_of_cleaned a Hne). rewrite Heq in Hne.
    rewrite (truthy_of_cleaned b Hne). now rewrite Heq.
Qed.

Lemma standardizeName_by_cleaned_form_witness :
  cleanName (VStr "ACME BANK.") = cleanName (VStr "Acme Bank")
  /\ standardizeName (loaded acmeBase emptyIndex) (VStr "ACME BANK.")
     = standardizeName (loaded acmeBase emptyIndex) (VStr "Acme Bank").
Proof.
  assert (H : cleanName (VStr "ACME BANK.") = cleanName (VStr "Acme Bank"))
    by reflexivity.
  exact (conj H (standardizeName_by_cleaned_form (loaded acmeBase emptyIndex)
                   (VStr "ACME BANK.") (VStr "Acme Bank") H)).
Defined.

Lemma cleanName_missing_field (row : Row) (column : string) :
  getOwn row column = None -> cleanName (get VStr row column) = "".
Proof.
  intros Hmiss. unfold get. rewrite Hmiss.
  destruct (objectPrototype column) as [v|] eqn:Hproto; [|reflexivity].
  unfold objectPrototype in Hproto.
  destruct (String.eqb column "constructor"); [now injection Hproto as <-|].
  destruct (String.eqb column "__proto__"); [now injection Hproto as <-|].
  destruct (existsb (String.eqb column) objectPrototypeMethods);
    [now injection Hproto as <- | discriminate].
Qed.

(** A row that lacks the selected column is recorded under "UNKNOWN" in
    every state, loaded or not; nothing is raised. *)
Theorem missing_field_recorded_as_unknown
  (st : AppState) (column : string) (i : nat) (row : Row) :
  nth_error (parsedData st) i = Some row ->
  getOwn row column = None ->
  processRows column 1 i st
  = (withResults
       (normalizedResults st
        ++ [{| inputFirmName := get VStr row column;
               standardizedFirmName := UNKNOWN |}]) st,
     Normal tt).
Proof.
  intros Hrow Hmiss.
  assert (Hlen : i + 1 <= List.length (parsedData st)).
  { assert (i < List.length (parsedData st)); [|lia].
    apply nth_error_Some. congruence. }
  rewrite (@processRows_spec column 1 i st Hlen).
  rewrite (skipn_nth_error _ _ Hrow). cbn [firstn].
  unfold sequentialRun, normalizeRow. cbn [map].
  rewrite (standardizeName_empty_key st _ (cleanName_missing_field row column Hmiss)).
  reflexivity.
Qed.

Lemma missing_field_recorded_as_unknown_witness :
  nth_error (parsedData (unloadedState [rowWithoutFirm])) 0 = Some rowWithoutFirm
  /\ getOwn rowWithoutFirm "Firm" = None
  /\ processRows "Firm" 1 0 (unloadedState [rowWithoutFirm])
     = (withResults [{| inputFirmName := VUndefined; standardizedFirmName := UNKNOWN |}]
          (unloadedState [rowWithoutFirm]),
        Normal tt).
Proof.
  exact (conj eq_refl
           (conj eq_refl
              (@missing_field_recorded_as_unknown (unloadedState [rowWithoutFirm])
                 "Firm" 0 rowWithoutFirm eq_refl eq_refl))).
Defined.

End StandardizeEdges.

(** ** [initialize]: what it leaves alone *)

(** [initialize] never raises, whatever the fetch settles to and
    whatever the body parses to; it touches nothing but [knowledgeBase],
    [fuse] and the status line; and the status is not an error exactly
    when the response was ok, its body parsed to a document other than
    [null], and [new Fuse] did not raise on the document's
    [allKnownVariants]. *)
Theorem initialize_contained (h : Host) (outcome : FetchOutcome) (st : AppState) :
  snd (initialize h outcome st) = Normal tt
  /\ parsedData (fst (initialize h outcome st)) = parsedData st
  /\ headers (fst (initialize h outcome st)) = headers st
  /\ normalizedResults (fst (initialize h outcome st)) = normalizedResults st
  /\ processButtonDisabled (fst (initialize h outcome st)) = processButtonDisabled st
  /\ resultsDiv (fst (initialize h outcome st)) = resultsDiv st
  /\ resultsContainerShown (fst (initialize h outcome st)) = resultsContainerShown st
  /\ (isError (status (fst (initialize h outcome st))) = false
      <-> exists doc index,
            outcome = Response true (Json (Some doc))
            /\ newFuse h (allKnownVariantsField doc) fuseOptions = Normal index).
Proof.
  destruct outcome as [m|[|] [m|doc]];
    try (repeat split; try reflexivity; try discriminate;
         intros [doc' [index [H _]]]; discriminate H).
  rewrite initialize_json. destruct doc as [doc|]; cbn [readCollection bind].
  - destruct (newFuse h (allKnownVariantsField doc) fuseOptions) as [index|m] eqn:Hfuse;
      repeat split; try discriminate.
    + intros _. eauto.
    + intros [doc' [index [[= <-] H]]]. congruence.
  - repeat split; try discriminate.
    intros [doc' [index [H _]]]. discriminate H.
Qed.

(** ** [processData]: where a run ends *)

Section RunOutcome.

Variable h : Host.
Variable column : string.


Lemma withStatus_same (st : AppState) : withStatus (status st) st = st.
Proof. now destruct st. Qed.

Lemma chunks_left (total pc : nat) :
  pc + chunkSize < total ->
  (total - pc - 1) / chunkSize = S ((total - (pc + chunkSize) - 1) / chunkSize).
Proof.
  intros Hlt.
  replace (total - pc - 1) with ((total - (pc + chunkSize) - 1) + 1 * chunkSize) by lia.
  rewrite Nat.div_add by discriminate. lia.
Qed.

Lemma last_chunk (total pc : nat) :
  total <= pc + chunkSize -> (total - pc - 1) / chunkSize = 0.
Proof. intros Hle. apply Nat.div_small. unfold chunkSize in *. lia. Qed.

(** The final state of the timer queue, in both of its outcomes. *)
Lemma runChunks_outcome (fuel : nat) : forall processedCount st,
  processedCount <= List.length (parsedData st) ->
  (List.length (parsedData st) - processedCount - 1) / chunkSize < fuel ->
  match snd (sequentialRun st column (skipn processedCount (parsedData st))) with
  | Normal _ =>
      runChunks fuel h column (List.length (parsedData st)) processedCount st
      = Some (displayResults h
                (finishedState
                   (normalizedResults st
                    ++ fst (sequentialRun st column
                              (skipn processedCount (parsedData st)))) st))
  | Throw m =>
      exists s,
        (s = status st \/ isError s = false)
        /\ runChunks fuel h column (List.length (parsedData st)) processedCount st
           = Some (withStatus s
                     (withResults
                        (normalizedResults st
                         ++ fst (sequentialRun st column
                                   (skipn processedCount (parsedData st)))) st),
                   Throw m)
  end.
Proof.
  induction fuel as [|fuel IH]; intros pc st Hpc Hfuel; [lia|].
  cbn [runChunks]. rewrite processChunk_unfold. cbv zeta.
  set (total := List.length (parsedData st)) in *.
  set (end_ := Nat.min (pc + chunkSize) total).
  assert (Hend : pc <= end_ <= total) by (unfold end_; lia).
  rewrite processRows_spec by (fold total; lia).
  set (slice := firstn (end_ - pc) (skipn pc (parsedData st))).
  rewrite (skipn_slice (parsedData st) (i := pc) (j := end_)) by lia.
  fold slice. rewrite sequentialRun_app.
  destruct (sequentialRun st column slice) as [done [[]|m]] eqn:Hslice;
    cbn [fst snd].
  - destruct (Nat.ltb_spec end_ total) as [Hmore|Hlast].
    + match goal with
      | |- context [runChunks fuel h column total end_ ?s] => set (st2 := s)
      end.
      assert (Hstep : end_ = pc + chunkSize) by (unfold end_ in *; lia).
      assert (Hfuel2 : (total - end_ - 1) / chunkSize < fuel).
      { rewrite (@chunks_left total pc) in Hfuel by lia. rewrite Hstep. lia. }
      specialize (IH end_ st2).
      change (List.length (parsedData st2)) with total in IH.
      change (parsedData st2) with (parsedData st) in IH.
      rewrite (sequentialRun_frame st st2) in IH by reflexivity.
      specialize (IH (proj2 Hend) Hfuel2).
      destruct (sequentialRun st column (skipn end_ (parsedData st)))
        as [rest [[]|m]]; cbn [fst snd] in *.
      * rewrite IH. simpl normalizedResults. now rewrite <- app_assoc.
      * destruct IH as [s [Hs Hrun]]. exists s. split.
        -- destruct Hs as [->|Hs]; [right; reflexivity | now right].
        -- rewrite Hrun. simpl normalizedResults. now rewrite <- app_assoc.
    + assert (Hnil : skipn end_ (parsedData st) = []).
      { apply skipn_all2. fold total. lia. }
      rewrite Hnil. cbn [sequentialRun map collect fst snd]. rewrite app_nil_r.
      match goal with
      | |- context [displayResults h ?s] =>
          change s with (finishedState (normalizedResults st ++ done) st)
      end.
      now destruct (displayResults h (finishedState (normalizedResults st ++ done) st))
        as [st3 [[]|m]].
  - exists (status st). split; [now left|].
    change (status st) with (status (withResults (normalizedResults st ++ done) st)).
    now rewrite withStatus_same.
Qed.

(** More fuel never changes the outcome. *)
Lemma runChunks_more_fuel (fuel : nat) : forall extra total processedCount st r,
  runChunks fuel h column total processedCount st = Some r ->
  runChunks (fuel + extra) h column total processedCount st = Some r.
Proof.
  induction fuel as [|fuel IH]; intros extra total pc st r; [discriminate|].
  cbn [runChunks Nat.add].
  destruct (processChunk h column total pc st) as [st' [[next|]|m]]; auto.
Qed.

(** With too little fuel a run that does not raise is cut short. *)
Lemma runChunks_short (fuel : nat) : forall processedCount st,
  processedCount <= List.length (parsedData st) ->
  snd (sequentialRun st column (skipn processedCount (parsedData st))) = Normal tt ->
  fuel <= (List.length (parsedData st) - processedCount - 1) / chunkSize ->
  runChunks fuel h column (List.length (parsedData st)) processedCount st = None.
Proof.
  induction fuel as [|fuel IH]; intros pc st Hpc Hok Hfuel; [reflexivity|].
  cbn [runChunks]. rewrite processChunk_unfold. cbv zeta.
  set (total := List.length (parsedData st)) in *.
  assert (Hfar : pc + chunkSize < total).
  { destruct (Nat.le_gt_cases total (pc + chunkSize)) as [Hle|]; [|assumption].
    rewrite (@last_chunk total pc Hle) in Hfuel. lia. }
  set (end_ := Nat.min (pc + chunkSize) total).
  assert (Hstep : end_ = pc + chunkSize) by (unfold end_; lia).
  rewrite processRows_spec by (fold total; lia).
  set (slice := firstn (end_ - pc) (skipn pc (parsedData st))).
  rewrite (skipn_slice (parsedData st) (i := pc) (j := end_)) in Hok by lia.
  fold slice in Hok. rewrite sequentialRun_app in Hok.
  destruct (sequentialRun st column slice) as [done [[]|m]] eqn:Hslice;
    cbn [fst snd] in *; [|discriminate].
  destruct (Nat.ltb_spec end_ total) as [_|Hlast]; [|lia].
  match goal with
  | |- runChunks fuel h column total end_ ?s = None => set (st2 := s)
  end.
  specialize (IH end_ st2).
  change (List.length (parsedData st2)) with total in IH.
  change (parsedData st2) with (parsedData st) in IH.
  rewrite (sequentialRun_frame st st2) in IH by reflexivity.
  apply IH; [lia | assumption |].
  rewrite (@chunks_left total pc Hfar) in Hfuel. rewrite Hstep. lia.
Qed.

End RunOutcome.

Section ProcessDataOutcome.

Variable h : Host.
Variable column : string.

Lemma whole_run_fuel (n : nat) : (n - 0 - 1) / chunkSize < S n.
Proof.
  apply Nat.lt_succ_r. apply Nat.Div0.div_le_upper_bound.
  unfold chunkSize. lia.
Qed.

(** The two ways a call of [processData] ends. *)
Lemma processData_cases (st : AppState) :
  match snd (sequentialRun st column (parsedData st)) with
  | Normal _ =>
      processData h column st
      = Some (displayResults h
                (finishedState (fst (sequentialRun st column (parsedData st)))
                               (startedState st)))
  | Throw m =>
      exists s,
        isError s = false
        /\ processData h column st
           = Some (withStatus s
                     (withResults (fst (sequentialRun st column (parsedData st)))
                                  (startedState st)),
                   Throw m)
  end.
Proof.
  pose proof (@runChunks_outcome h column (S (List.length (parsedData st))) 0
                (startedState st) (Nat.le_0_l _) (whole_run_fuel _)) as Hrun.
  change (parsedData (startedState st)) with (parsedData st) in Hrun.
  change (normalizedResults (startedState st)) with (@nil NormalizedRecord) in Hrun.
  rewrite (sequentialRun_frame st (startedState st)) in Hrun by reflexivity.
  cbn [skipn app] in Hrun.
  change (processData h column st)
    with (runChunks (S (List.length (parsedData st))) h column
            (List.length (parsedData st)) 0 (startedState st)).
  destruct (sequentialRun st column (parsedData st)) as [records [[]|m]];
    cbn [fst snd] in *; [exact Hrun|].
  destruct Hrun as [s [Hs Hrun]]. exists s. split; [|exact Hrun].
  destruct Hs as [->|Hs]; [reflexivity | exact Hs].
Qed.

Lemma standardizeName_loaded (st : AppState) (kb : KnowledgeBase) (index : FuseIndex)
  (x : jsval) :
  knowledgeBase st = Some kb -> fuse st = Some index ->
  exists v, standardizeName st x = Normal v.
Proof.
  intros Hkb Hfuse.
  destruct (String.eqb_spec (cleanName x) "") as [Hempty|Hne].
  - rewrite (standardizeName_empty_key st x Hempty). eauto.
  - rewrite (standardizeName_lookup st x Hkb Hne), fuzzyMatch_document, Hfuse.
    destruct (truthy (variantLabel kb (cleanName x))); [eauto|].
    destruct (index (cleanName x)) as [|best rest]; [eauto|].
    destruct (PrimFloat.ltb (score best) confidenceThreshold); eauto.
Qed.

Lemma sequentialRun_loaded (st : AppState) (kb : KnowledgeBase) (index : FuseIndex)
  (rows : list Row) :
  knowledgeBase st = Some kb -> fuse st = Some index ->
  snd (sequentialRun st column rows) = Normal tt
  /\ map Normal (fst (sequentialRun st column rows)) = map (normalizeRow st column) rows.
Proof.
  intros Hkb Hfuse. apply collect_all_Normal.
  intros c Hc. apply in_map_iff in Hc as [row [<- _]]. unfold normalizeRow.
  destruct (@standardizeName_loaded st kb index (get VStr row column) Hkb Hfuse)
    as [v ->].
  cbn [bind]. eauto.
Qed.


Lemma started_again (s : Status) (records : list NormalizedRecord) (st : AppState) :
  startedState (withStatus s (withResults records (startedState st)))
  = startedState st.
Proof. reflexivity. Qed.



Lemma normalizeRow_input (st : AppState) (row : Row) (r : NormalizedRecord) :
  normalizeRow st column row = Normal r ->
  inputFirmName r = get VStr row column
  /\ standardizeName st (get VStr row column) = Normal (standardizedFirmName r).
Proof.
  unfold normalizeRow.
  destruct (standardizeName st (get VStr row column)) as [v|m'];
    cbn [bind]; [|discriminate].
  intros [= <-]. now split.
Qed.

Lemma records_inputs (st : AppState) (rows : list Row) :
  forall records,
    map Normal records = map (normalizeRow st column) rows ->
    map inputFirmName records = map (fun row => get VStr row column) rows.
Proof.
  induction rows as [|row rest IH]; intros [|r records]; cbn [map];
    try discriminate; [reflexivity|].
  intros [= Hr Hrest]. symmetry in Hr.
  destruct (normalizeRow_input _ _ Hr) as [-> _]. now rewrite (IH _ Hrest).
Qed.

Lemma records_labels (st : AppState) (rows : list Row) :
  forall records,
    map Normal records = map (normalizeRow st column) rows ->
    map (fun r => Normal (standardizedFirmName r)) records
    = map (fun row => standardizeName st (get VStr row column)) rows.
Proof.
  induction rows as [|row rest IH]; intros [|r records]; cbn [map];
    try discriminate; [reflexivity|].
  intros [= Hr Hrest]. symmetry in Hr.
  destruct (normalizeRow_input _ _ Hr) as [_ ->]. now rewrite (IH _ Hrest).
Qed.


(** ... and returns when it raises on none. *)
Lemma sequentialRun_returns (st : AppState) (rows : list Row) :
  (forall row, In row rows ->
     exists v, standardizeName st (get VStr row column) = Normal v) ->
  snd (sequentialRun st column rows) = Normal tt
  /\ map Normal (fst (sequentialRun st column rows)) = map (normalizeRow st column) rows.
Proof.
  intros Hall. apply collect_all_Normal.
  intros c Hc. apply in_map_iff in Hc as [row [<- Hrow]]. unfold normalizeRow.
  destruct (Hall row Hrow) as [v ->]. cbn [bind]. eauto.
Qed.

Lemma groupFrom_Throw (records : list NormalizedRecord) :
  forall acc m, groupFrom h acc records = Throw m -> m = TypeError.
Proof.
  induction records as [|curr rest IH]; cbn [groupFrom]; intros acc m; [discriminate|].
  destruct (groupStep h acc curr) as [acc'|m'] eqn:Hstep; cbn [bind]; [apply IH|].
  intros [= <-]. revert Hstep. unfold groupStep. cbv zeta.
  match goal with
  | |- context [readSlot ?a ?k] => destruct (readSlot a k)
  end; try (now intros [= <-]).
  destruct (negb (includes elems (inputFirmName curr))); discriminate.
Qed.

(** The undisturbed run on a loaded page. *)
Lemma processData_when_loaded
  (st : AppState) (kb : KnowledgeBase) (index : FuseIndex) :
  knowledgeBase st = Some kb -> fuse st = Some index ->
  exists st' c,
    processData h column st = Some (st', c)
    /\ map inputFirmName (normalizedResults st')
       = map (fun row => get VStr row column) (parsedData st)
    /\ map (fun r => Normal (standardizedFirmName r)) (normalizedResults st')
       = map (fun row => standardizeName st (get VStr row column)) (parsedData st)
    /\ processButtonDisabled st' = false
    /\ status st'
       = {| message := "Normalization complete! "
                       ++ natToString (List.length (parsedData st))
                       ++ " rows processed.";
            isError := false |}
    /\ (c = Normal tt /\ resultsContainerShown st' = true
        \/ c = Throw TypeError
           /\ resultsDiv st' = resultsDiv st
           /\ resultsContainerShown st' = resultsContainerShown st).
Proof.
  intros Hkb Hfuse.
  destruct (@sequentialRun_loaded st kb index (parsedData st) Hkb Hfuse)
    as [Hok Hrecords].
  pose proof (processData_cases st) as Hrun. rewrite Hok in Hrun.
  set (records := fst (sequentialRun st column (parsedData st))) in *.
  rewrite displayResults_unfold in Hrun.
  change (normalizedResults (finishedState records (startedState st)))
    with records in Hrun.
  destruct (group h records) as [grouped|m] eqn:Hgroup.
  - eexists _, _. split; [exact Hrun|]. cbn.
    repeat split;
      [exact (@records_inputs st _ _ Hrecords) | exact (@records_labels st _ _ Hrecords)
      | now left].
  - eexists _, _. split; [exact Hrun|]. cbn.
    repeat split;
      [exact (@records_inputs st _ _ Hrecords) | exact (@records_labels st _ _ Hrecords) |].
    right. now rewrite (@groupFrom_Throw records [] m Hgroup).
Qed.

(** On a page whose knowledge base has the intended shape and whose
    index is in place, a run over any file ends, whatever tasks run at
    its yields as long as they leave the parsed rows, the knowledge base
    and the index alone; no row raises; there is one record per row, in
    row order, holding the field read from the row and what
    [standardizeName] returns for it; the button is enabled again and the
    status announces completion.  Only the grouping of [displayResults]
    can still raise, with a [TypeError], and then the rendered results are
    left as they were. *)
Theorem processData_completes_when_loaded
  (yields : list (list Task)) (st : AppState) (kb : KnowledgeBase)
  (index : FuseIndex) :
  forallb (forallb quiet) yields = true ->
  knowledgeBase st = Some kb -> fuse st = Some index ->
  exists st' c,
    processDataWith h column yields st = Some (st', c)
    /\ map inputFirmName (normalizedResults st')
       = map (fun row => get VStr row column) (parsedData st)
    /\ map (fun r => Normal (standardizedFirmName r)) (normalizedResults st')
       = map (fun row => standardizeName st (get VStr row column)) (parsedData st)
    /\ processButtonDisabled st' = false
    /\ status st'
       = {| message := "Normalization complete! "
                       ++ natToString (List.length (parsedData st))
                       ++ " rows processed.";
            isError := false |}
    /\ (c = Normal tt /\ resultsContainerShown st' = true
        \/ c = Throw TypeError /\ resultsDiv st' = resultsDiv st).
Proof.
  intros Hquiet Hkb Hfuse.
  destruct (processData_when_loaded st Hkb Hfuse)
    as [final [c [Hrun [Hinputs [Hlabels [Hbutton [Hstatus Hview]]]]]]].
  pose proof (@processDataWith_quiet h column yields st st Hquiet (agree_refl _))
    as Hwith.
  rewrite Hrun in Hwith.
  destruct Hwith as [st' [Hrun' [Hagree [Hnormal Hdone]]]].
  pose proof Hagree as (_ & _ & _ & _ & Hn & Hb & Hd).
  exists st', c. split; [exact Hrun'|]. rewrite Hn, Hb, Hd, (Hdone Hbutton).
  split; [exact Hinputs|]. split; [exact Hlabels|]. split; [exact Hbutton|].
  split; [exact Hstatus|].
  destruct Hview as [[-> Hshown]|[-> [Hdiv _]]].
  - left. split; [reflexivity|]. now rewrite (Hnormal eq_refl).
  - right. now split.
Qed.


(** The calls of [processChunk] an undisturbed run takes. *)
Lemma runChunks_calls (st : AppState) (calls : nat) :
  (forall row, In row (parsedData st) ->
     exists v, standardizeName st (get VStr row column) = Normal v) ->
  (runChunks calls h column (List.length (parsedData st)) 0 (startedState st) = None
   <-> calls <= (List.length (parsedData st) - 1) / chunkSize).
Proof.
  intros Hall. destruct (sequentialRun_returns st (parsedData st) Hall) as [Hok _].
  assert (Hok' : snd (sequentialRun (startedState st) column
                        (skipn 0 (parsedData (startedState st)))) = Normal tt).
  { rewrite (sequentialRun_frame st (startedState st)) by reflexivity. exact Hok. }
  split.
  - intros Hnone.
    destruct (Nat.le_gt_cases calls ((List.length (parsedData st) - 1) / chunkSize))
      as [Hle|Hgt]; [exact Hle|].
    exfalso.
    pose proof (@runChunks_outcome h column calls 0 (startedState st)
                  (Nat.le_0_l _)) as Hrun.
    rewrite Hok' in Hrun.
    change (parsedData (startedState st)) with (parsedData st) in Hrun.
    rewrite Nat.sub_0_r in Hrun. rewrite (Hrun Hgt) in Hnone. discriminate.
  - intros Hle.
    apply (@runChunks_short h column calls 0 (startedState st) (Nat.le_0_l _) Hok').
    change (parsedData (startedState st)) with (parsedData st).
    now rewrite Nat.sub_0_r.
Qed.

(** A run in which no row raises, and at whose yields only tasks run
    that leave the parsed rows, the knowledge base and the index alone,
    takes [(n - 1) / 1000 + 1] calls of [processChunk] for [n] rows, no
    fewer: one call even for no rows, and one more for each further slice
    of 1000. *)
Theorem processData_chunk_calls
  (yields : list (list Task)) (st : AppState) (calls : nat) :
  forallb (forallb quiet) yields = true ->
  (forall row, In row (parsedData st) ->
     exists v, standardizeName st (get VStr row column) = Normal v) ->
  (runChunksWith calls h column (List.length (parsedData st)) 0 yields
     (startedState st) = None
   <-> calls <= (List.length (parsedData st) - 1) / chunkSize).
Proof.
  intros Hquiet Hall. rewrite <- (runChunks_calls st calls Hall).
  pose proof (@runChunksWith_quiet h column calls (List.length (parsedData st)) 0
                yields (startedState st) (startedState st) Hquiet (agree_refl _))
    as Hwith.
  destruct (runChunks calls h column (List.length (parsedData st)) 0 (startedState st))
    as [[final c]|].
  - destruct Hwith as [final' [-> _]]. split; discriminate.
  - rewrite Hwith. split; reflexivity.
Qed.

(** Running the undisturbed batch again on the state it produced
    changes nothing. *)
Lemma processData_again (st : AppState) :
  exists r,
    processData h column st = Some r
    /\ processData h column (fst r) = Some r.
Proof.
  pose proof (processData_cases st) as H1.
  destruct (sequentialRun st column (parsedData st)) as [records [[]|m]] eqn:Hseq;
    cbn [fst snd] in H1.
  - eexists. split; [exact H1|].
    set (st1 := fst (displayResults h (finishedState records (startedState st)))).
    destruct (displayResults_frame h (finishedState records (startedState st)))
      as [_ [Hkb [Hfuse Hrows]]].
    fold st1 in Hkb, Hfuse, Hrows.
    change (knowledgeBase (finishedState records (startedState st)))
      with (knowledgeBase st) in Hkb.
    change (fuse (finishedState records (startedState st))) with (fuse st) in Hfuse.
    change (parsedData (finishedState records (startedState st)))
      with (parsedData st) in Hrows.
    pose proof (processData_cases st1) as H2.
    rewrite Hrows, (sequentialRun_frame st st1 _ _ Hkb Hfuse), Hseq in H2.
    cbn [fst snd] in H2. rewrite H2. f_equal.
    unfold st1. rewrite (displayResults_unfold h (finishedState records (startedState st))).
    change (normalizedResults (finishedState records (startedState st))) with records.
    destruct (group h records) as [grouped|m] eqn:Hgroup; cbn [fst];
      rewrite displayResults_unfold;
      match goal with
      | |- context [group h (normalizedResults (finishedState records ?s))] =>
          change (normalizedResults (finishedState records s)) with records
      end;
      rewrite Hgroup; reflexivity.
  - destruct H1 as [s [Hs H1]]. eexists. split; [exact H1|]. cbn [fst].
    match goal with
    | |- processData h column ?s1 = _ =>
        change (processData h column s1) with (processData h column st)
    end.
    exact H1.
Qed.

(** Running the batch again on the state it produced gives the same
    records and the same outcome, the results being rebuilt from the rows
    and not appended to, whatever tasks run at the yields of either run as
    long as they leave the parsed rows, the knowledge base and the index
    alone. *)
Theorem processData_rerun (first second : list (list Task)) (st : AppState) :
  forallb (forallb quiet) first = true ->
  forallb (forallb quiet) second = true ->
  exists r r',
    processDataWith h column first st = Some r
    /\ processDataWith h column second (fst r) = Some r'
    /\ normalizedResults (fst r') = normalizedResults (fst r)
    /\ snd r' = snd r.
Proof.
  intros Hfirst Hsecond.
  destruct (processData_again st) as [[final c] [Hrun Hagain]]. cbn [fst] in Hagain.
  pose proof (@processDataWith_quiet h column first st st Hfirst (agree_refl _))
    as Hone.
  rewrite Hrun in Hone. destruct Hone as [final1 [Hrun1 [Hagree1 _]]].
  assert (Hstart : agree (startedState final) (startedState final1)).
  { destruct Hagree1 as (H1 & H2 & H3 & H4 & H5 & H6 & H7). repeat split; assumption. }
  pose proof (@processDataWith_quiet h column second final final1 Hsecond Hstart)
    as Htwo.
  rewrite Hagain in Htwo. destruct Htwo as [final2 [Hrun2 [Hagree2 _]]].
  exists (final1, c), (final2, c). cbn [fst snd].
  split; [exact Hrun1|]. split; [exact Hrun2|]. split; [|reflexivity].
  destruct Hagree1 as (_ & _ & _ & _ & H1 & _).
  destruct Hagree2 as (_ & _ & _ & _ & H2 & _). congruence.
Qed.

End ProcessDataOutcome.

Lemma processData_completes_when_loaded_witness :
  forallb (forallb quiet) busyYields = true
  /\ knowledgeBase (parsedState acmeBase acmeRows) = Some acmeBase
  /\ fuse (parsedState acmeBase acmeRows)
     = Some (Fuse sampleHost (allKnownVariants acmeBase) fuseOptions)
  /\ exists st' c,
       processDataWith sampleHost "Firm" busyYields (parsedState acmeBase acmeRows)
       = Some (st', c)
       /\ map inputFirmName (normalizedResults st')
          = [VStr "Acme Bank"; VStr "ACME BANK."; VStr "UNKNOWN CO"]
       /\ processButtonDisabled st' = false.
Proof.
  split; [reflexivity|]. split; [reflexivity|]. split; [reflexivity|].
  destruct (@processData_completes_when_loaded sampleHost "Firm" busyYields
              (parsedState acmeBase acmeRows) acmeBase
              (Fuse sampleHost (allKnownVariants acmeBase) fuseOptions)
              eq_refl eq_refl eq_refl)
    as [st' [c [Hrun [Hinputs [_ [Hbutton _]]]]]].
  exists st', c. split; [exact Hrun|]. split; [exact Hinputs | exact Hbutton].
Defined.


Lemma processData_chunk_calls_witness :
  runChunksWith 2 sampleHost "Firm"
    (List.length (parsedData (parsedState acmeBase manyRows))) 0 busyYields
    (startedState (parsedState acmeBase manyRows)) = None
  <-> 2 <= (List.length (parsedData (parsedState acmeBase manyRows)) - 1) / chunkSize.
Proof.
  apply (@processData_chunk_calls sampleHost "Firm" busyYields
           (parsedState acmeBase manyRows) 2 eq_refl).
  intros row Hrow. apply repeat_spec in Hrow. subst row.
  exists (VStr "Acme Corporation"). reflexivity.
Defined.

Lemma processData_rerun_witness :
  exists r r',
    processDataWith sampleHost "Firm" busyYields (parsedState acmeBase acmeRows)
    = Some r
    /\ processDataWith sampleHost "Firm" [] (fst r) = Some r'
    /\ normalizedResults (fst r') = normalizedResults (fst r).
Proof.
  destruct (@processData_rerun sampleHost "Firm" busyYields []
              (parsedState acmeBase acmeRows) eq_refl eq_refl)
    as [r [r' [Hone [Htwo [Hsame _]]]]].
  exists r, r'. split; [exact Hone|]. split; [exact Htwo | exact Hsame].
Defined.

(** ** The handlers, one after another *)

Section Handlers.

Variable h : Host.

Lemma guard_passes (selectedColumn : string) (st : AppState) :
  selectedColumn <> "" -> parsedData st <> [] ->
  processButtonClick h selectedColumn st = processData h selectedColumn st.
Proof.
  intros Hcol Hrows. unfold processButtonClick.
  apply truthy_VStr in Hcol. rewrite Hcol.
  destruct (parsedData st) as [|row rest]; [contradiction | reflexivity].
Qed.





(** Upload, normalize, download on a loaded page and an idle event
    loop. *)
Lemma upload_process_idle
  (st : AppState) (kb : KnowledgeBase) (index : FuseIndex) (name : string)
  (rows : list Row) (fields : list string) (selectedColumn : string) :
  knowledgeBase st = Some kb -> fuse st = Some index ->
  selectedColumn <> "" -> rows <> [] ->
  exists st' c,
    processButtonClick h selectedColumn
      (fst (fileInputChange (Some (name, ParseComplete rows fields)) st))
    = Some (st', c)
    /\ map inputFirmName (normalizedResults st')
       = map (fun row => get VStr row selectedColumn) rows
    /\ map (fun r => Normal (standardizedFirmName r)) (normalizedResults st')
       = map (fun row => standardizeName st (get VStr row selectedColumn)) rows
    /\ downloadButtonClick h st'
       = SaveFile "normalized_firms.csv" (unparse h (normalizedResults st')).
Proof.
  intros Hkb Hfuse Hcol Hrows.
  set (st1 := fst (fileInputChange (Some (name, ParseComplete rows fields)) st)).
  assert (Hkb1 : knowledgeBase st1 = knowledgeBase st) by reflexivity.
  assert (Hfuse1 : fuse st1 = fuse st) by reflexivity.
  assert (Hrows1 : parsedData st1 = rows) by reflexivity.
  rewrite guard_passes; [| exact Hcol | now rewrite Hrows1].
  destruct (@sequentialRun_loaded selectedColumn st1 kb index rows)
    as [Hok Hrecords]; [now rewrite Hkb1 | now rewrite Hfuse1 |].
  pose proof (@processData_cases h selectedColumn st1) as Hrun.
  rewrite Hrows1, Hok in Hrun.
  set (records := fst (sequentialRun st1 selectedColumn rows)) in *.
  rewrite Hrun. eexists _, _. rewrite <- surjective_pairing. split; [reflexivity|].
  destruct (displayResults_frame h (finishedState records (startedState st1)))
    as [-> _].
  change (normalizedResults (finishedState records (startedState st1))) with records.
  assert (Hmap : map Normal records = map (normalizeRow st selectedColumn) rows).
  { rewrite Hrecords. apply map_ext. intros row.
    now apply normalizeRow_frame. }
  split; [exact (@records_inputs selectedColumn st _ _ Hmap)|].
  split; [exact (@records_labels selectedColumn st _ _ Hmap)|].
  unfold downloadButtonClick.
  destruct (displayResults_frame h (finishedState records (startedState st1)))
    as [-> _].
  change (normalizedResults (finishedState records (startedState st1))) with records.
  assert (Hlen : List.length records = List.length rows).
  { rewrite <- (length_map Normal records), Hmap. apply length_map. }
  rewrite Hlen. destruct rows; [contradiction | reflexivity].
Qed.

Lemma guard_passes_with (selectedColumn : string) (yields : list (list Task))
  (st : AppState) :
  selectedColumn <> "" -> parsedData st <> [] ->
  processButtonClickWith h selectedColumn yields st
  = processDataWith h selectedColumn yields st.
Proof.
  intros Hcol Hrows. unfold processButtonClickWith.
  apply truthy_VStr in Hcol. rewrite Hcol.
  destruct (parsedData st) as [|row rest]; [contradiction | reflexivity].
Qed.

(** Upload, normalize, download on a page whose knowledge base has the
    intended shape and whose index is in place: whatever tasks run at the
    yields of the run, as long as they leave the parsed rows, the
    knowledge base and the index alone, the file saved afterwards is
    [Papa.unparse] of one record per row of the uploaded file, in row
    order, each holding the selected field of its row and what
    [standardizeName] returns for it. *)
Theorem upload_process_download
  (yields : list (list Task)) (st : AppState) (kb : KnowledgeBase)
  (index : FuseIndex) (name : string) (rows : list Row) (fields : list string)
  (selectedColumn : string) :
  forallb (forallb quiet) yields = true ->
  knowledgeBase st = Some kb -> fuse st = Some index ->
  selectedColumn <> "" -> rows <> [] ->
  exists st' c,
    processButtonClickWith h selectedColumn yields
      (fst (fileInputChange (Some (name, ParseComplete rows fields)) st))
    = Some (st', c)
    /\ map inputFirmName (normalizedResults st')
       = map (fun row => get VStr row selectedColumn) rows
    /\ map (fun r => Normal (standardizedFirmName r)) (normalizedResults st')
       = map (fun row => standardizeName st (get VStr row selectedColumn)) rows
    /\ downloadButtonClick h st'
       = SaveFile "normalized_firms.csv" (unparse h (normalizedResults st')).
Proof.
  intros Hquiet Hkb Hfuse Hcol Hrows.
  destruct (@upload_process_idle st kb index name rows fields selectedColumn
              Hkb Hfuse Hcol Hrows)
    as [final [c [Hrun [Hinputs [Hlabels Hsave]]]]].
  set (st1 := fst (fileInputChange (Some (name, ParseComplete rows fields)) st)) in *.
  assert (Hrows1 : parsedData st1 <> []) by exact Hrows.
  rewrite (guard_passes st1 Hcol Hrows1) in Hrun.
  rewrite (guard_passes_with yields st1 Hcol Hrows1).
  pose proof (@processDataWith_quiet h selectedColumn yields st1 st1 Hquiet
                (agree_refl _)) as Hwith.
  rewrite Hrun in Hwith. destruct Hwith as [st' [Hrun' [Hagree _]]].
  destruct Hagree as (_ & _ & _ & _ & Hn & _).
  exists st', c. split; [exact Hrun'|].
  unfold downloadButtonClick in *. rewrite Hn. auto.
Qed.

(** Choosing a file never raises and never clears the results of the
    previous run: the download button still exports them.  A parse error
    also keeps the rows and headers of the previous file, so the next
    click on the process button runs over that file again. *)
Theorem fileInputChange_keeps_results
  (file : option (string * ParseOutcome)) (st : AppState) :
  snd (fileInputChange file st) = Normal tt
  /\ normalizedResults (fst (fileInputChange file st)) = normalizedResults st
  /\ downloadButtonClick h (fst (fileInputChange file st)) = downloadButtonClick h st
  /\ knowledgeBase (fst (fileInputChange file st)) = knowledgeBase st
  /\ fuse (fst (fileInputChange file st)) = fuse st
  /\ resultsDiv (fst (fileInputChange file st)) = resultsDiv st
  /\ processButtonDisabled (fst (fileInputChange file st)) = processButtonDisabled st
  /\ (forall name m,
         file = Some (name, ParseError m) ->
         isError (status (fst (fileInputChange file st))) = true
         /\ resultsContainerShown (fst (fileInputChange file st)) = false
         /\ headers (fst (fileInputChange file st)) = headers st
         /\ parsedData (fst (fileInputChange file st)) = parsedData st).
Proof.
  destruct file as [[name [data fields|m]]|];
    do 7 (split; [reflexivity|]); intros name' m' [=]; repeat split.
Qed.

End Handlers.


Lemma upload_process_download_witness :
  knowledgeBase (loaded acmeBase emptyIndex) = Some acmeBase
  /\ fuse (loaded acmeBase emptyIndex) = Some emptyIndex
  /\ exists st' c,
       processButtonClickWith sampleHost "Firm" busyYields
         (fst (fileInputChange acmeFile (loaded acmeBase emptyIndex)))
       = Some (st', c)
       /\ downloadButtonClick sampleHost st'
          = SaveFile "normalized_firms.csv" (unparse sampleHost (normalizedResults st')).
Proof.
  split; [reflexivity|]. split; [reflexivity|].
  destruct (@upload_process_download sampleHost busyYields
              (loaded acmeBase emptyIndex)
              acmeBase emptyIndex "firms.csv" acmeRows ["Firm"] "Firm"
              eq_refl eq_refl eq_refl
              (fun H : "Firm" = "" => eq_ind "Firm"
                             (fun s => match s with
                                       | EmptyString => False
                                       | String _ _ => True
                                       end) I _ H)
              (fun H : acmeRows = [] => eq_ind acmeRows
                             (fun l => match l with
                                       | [] => False
                                       | _ :: _ => True
                                       end) I _ H))
    as [st' [c [Hrun [_ [_ Hsave]]]]].
  exists st', c. split; [exact Hrun | exact Hsave].
Defined.

(** ** [displayResults]: when it raises, and what a group holds *)

Section GroupCoverage.

Variable h : Host.

Lemma includes_app (a b : list jsval) (v : jsval) :
  includes (a ++ b) v = (includes a v || includes b v)%bool.
Proof. unfold includes. apply existsb_app. Qed.

(** Every value of the input is found by [includes] among the values
    seen before together with the ones kept. *)
Lemma firstSeenFrom_includes (l : list jsval) : forall seen x,
  In x l -> includes (seen ++ firstSeenFrom seen l) x = true.
Proof.
  induction l as [|y r IH]; intros seen x Hin; [contradiction|].
  cbn [firstSeenFrom]. destruct (includes seen y) eqn:Hseen.
  - destruct Hin as [<-|Hin]; [|now apply IH].
    rewrite includes_app, Hseen. reflexivity.
  - change (y :: firstSeenFrom (seen ++ [y]) r)
      with ([y] ++ firstSeenFrom (seen ++ [y]) r).
    rewrite app_assoc. destruct Hin as [<-|Hin]; [|now apply IH].
    rewrite includes_app, (includes_In (seen ++ [y]) y); [reflexivity|].
    apply in_or_app. right. now left.
Qed.

Lemma inputsOf_In (k : string) (records : list NormalizedRecord) (x : jsval) :
  In x (inputsOf h k records)
  <-> exists r, In r records
                /\ toString h (standardizedFirmName r) = k /\ inputFirmName r = x.
Proof.
  unfold inputsOf. rewrite in_map_iff. split.
  - intros [r [Hx Hr]]. apply filter_In in Hr as [Hr Hk].
    apply String.eqb_eq in Hk. eauto.
  - intros [r [Hr [Hk Hx]]]. exists r. split; [assumption|].
    apply filter_In. split; [assumption|]. now apply String.eqb_eq.
Qed.

Lemma firstSeenFrom_nil (l : list jsval) :
  firstSeenFrom [] l = [] -> l = [].
Proof. destruct l as [|x r]; [reflexivity | discriminate]. Qed.


(** No raw name is lost or invented by the grouping: the name of every
    record is found by [includes] in the group of the record's label,
    every member of a group is the name of a record with that label, and
    no group is empty. *)
Theorem group_covers_records
  (records : list NormalizedRecord) (grouped : object (list jsval)) :
  group h records = Normal grouped ->
  (forall r, In r records ->
     exists elems,
       getOwn grouped (toString h (standardizedFirmName r)) = Some elems
       /\ includes elems (inputFirmName r) = true)
  /\ (forall k elems x,
        getOwn grouped k = Some elems -> In x elems ->
        exists r, In r records
                  /\ toString h (standardizedFirmName r) = k /\ inputFirmName r = x)
  /\ (forall k elems, getOwn grouped k = Some elems -> elems <> []).
Proof.
  intros Hrun.
  pose proof (groupFrom_slots h records [] Hrun) as Hslots. cbn [getOwn] in Hslots.
  assert (Hgroups : forall k elems,
             getOwn grouped k = Some elems ->
             In k (labelKeys h records) /\ elems = firstSeen (inputsOf h k records)).
  { intros k elems Hown. rewrite Hslots in Hown.
    destruct (existsb (String.eqb k) (labelKeys h records)) eqn:Hk; [|discriminate].
    apply existsb_eqb_In in Hk. split; [assumption | congruence]. }
  split; [|split].
  - intros r Hr. exists (firstSeen (inputsOf h (toString h (standardizedFirmName r)) records)).
    split.
    + rewrite Hslots.
      assert (Hk : In (toString h (standardizedFirmName r)) (labelKeys h records)).
      { unfold labelKeys. apply in_map_iff. eauto. }
      apply existsb_eqb_In in Hk. now rewrite Hk.
    + apply (firstSeenFrom_includes _ []). apply inputsOf_In. eauto.
  - intros k elems x Hown Hx. destruct (Hgroups k elems Hown) as [_ ->].
    apply inputsOf_In. exact (firstSeenFrom_In _ _ _ Hx).
  - intros k elems Hown. destruct (Hgroups k elems Hown) as [Hk ->].
    intros Hnil. apply firstSeenFrom_nil in Hnil.
    unfold labelKeys in Hk. apply in_map_iff in Hk as [r [Hkey Hr]].
    assert (Hin : In (inputFirmName r) (inputsOf h k records))
      by (apply inputsOf_In; eauto).
    rewrite Hnil in Hin. contradiction.
Qed.

End GroupCoverage.

Lemma group_covers_records_witness :
  exists grouped,
    group sampleHost acmeRecords = Normal grouped
    /\ forall k elems, getOwn grouped k = Some elems -> elems <> [].
Proof.
  eexists. split; [reflexivity|].
  exact (proj2 (proj2 (@group_covers_records sampleHost acmeRecords _ eq_refl))).
Defined.
